(** * Pagurl: link extraction, duplicate lookup, note generation, replacement

    A shallow embedding of [src/main.ts] (class [PagurlPlugin]) and the
    properties of its specification.

    JavaScript strings are sequences of UTF-16 code units; a code unit is a
    number below 65536 and is modelled as [N].  The host application
    (Obsidian's editor, vault, metadata cache and notices, the [URL] parser
    and [moment]) is not part of the repository: it is modelled as explicit
    state ([Editor], [App], [Outcome]) whose fields are exactly what the
    plugin reads and writes. *)

From Stdlib Require Import List NArith Bool Ascii Lia Arith.
From Stdlib Require String.
Import String.StringSyntax.
Delimit Scope string_scope with string.
Import ListNotations.

Local Open Scope N_scope.
Local Open Scope list_scope.

(** ** JavaScript strings *)

Definition code_unit := N.
Definition jsstring := list code_unit.

(** An ASCII literal as a JavaScript string. *)
Definition js (s : String.string) : jsstring :=
  map N_of_ascii (String.list_ascii_of_string s).
Arguments js s%_string.

Definition LF : code_unit := 10.
Definition QUOTE : code_unit := 34.

Definition cu_eqb (a b : code_unit) : bool := N.eqb a b.

Fixpoint jseqb (a b : jsstring) : bool :=
  match a, b with
  | [], [] => true
  | x :: a', y :: b' => cu_eqb x y && jseqb a' b'
  | _, _ => false
  end.

(** Truthiness of a string: the empty string is the only falsy one. *)
Definition truthy (s : jsstring) : bool :=
  match s with [] => false | _ :: _ => true end.

(** [a || b] on strings. *)
Definition or_else (a b : jsstring) : jsstring :=
  if truthy a then a else b.

(** ECMAScript WhiteSpace and LineTerminator code units: the set matched by
    the regular-expression class [\s] and stripped by
    [String.prototype.trim]. *)
Definition isSpace (c : code_unit) : bool :=
  (c =? 9) || (c =? 10) || (c =? 11) || (c =? 12) || (c =? 13) || (c =? 32)
  || (c =? 160) || (c =? 5760)
  || ((8192 <=? c) && (c <=? 8202))
  || (c =? 8232) || (c =? 8233) || (c =? 8239) || (c =? 8287)
  || (c =? 12288) || (c =? 65279).

Fixpoint trimStart (s : jsstring) : jsstring :=
  match s with
  | c :: s' => if isSpace c then trimStart s' else s
  | [] => []
  end.

Definition trimEnd (s : jsstring) : jsstring := rev (trimStart (rev s)).

(** [String.prototype.trim]. *)
Definition trim (s : jsstring) : jsstring := trimEnd (trimStart s).

(** [s.startsWith(p)]. *)
Fixpoint startsWith (p s : jsstring) : bool :=
  match p, s with
  | [], _ => true
  | x :: p', y :: s' => cu_eqb x y && startsWith p' s'
  | _ :: _, [] => false
  end.

(** ** Regular expressions

    The fragment of ECMAScript regular expressions used by the plugin: a
    pattern is a sequence of terms; a term is a character set, a greedy
    quantifier ([*], [+], [?]) over a character set, or a parenthesis of a
    capture group.  Matching is the backtracking search of the language
    specification: terms are tried left to right, a greedy quantifier first
    takes as many characters as it can and gives them back one at a time. *)

Module Regex.

Definition charset := code_unit -> bool.

Inductive term : Type :=
| One (p : charset)
| Star (p : charset)
| Plus (p : charset)
| Opt (p : charset)
| Open (n : nat)
| Close (n : nat).

Definition pattern := list term.

(** Character sets. *)
Definition chr (a : ascii) : charset := fun c => c =? N_of_ascii a.

(** A letter under the [i] flag.  Without the [u] flag two code units are
    equal when their canonical (upper-case) forms are, and a code unit
    outside ASCII is never canonicalised to an ASCII one: an ASCII letter
    matches itself in lower and in upper case and nothing else. *)
Definition chri (lower upper : ascii) : charset :=
  fun c => (c =? N_of_ascii lower) || (c =? N_of_ascii upper).

Definition notIn (l : list ascii) : charset :=
  fun c => negb (existsb (fun a => c =? N_of_ascii a) l).

Definition oneOf (l : list ascii) : charset :=
  fun c => existsb (fun a => c =? N_of_ascii a) l.

(** A match: the piece of input each term consumed, and the rest. *)
Definition outcome : Type := list jsstring * jsstring.

Definition emit (seg : jsstring) (r : option outcome) : option outcome :=
  match r with
  | Some (segs, rest) => Some (seg :: segs, rest)
  | None => None
  end.

(** Greedy [p*] followed by the continuation [k]. *)
Fixpoint star (p : charset) (k : jsstring -> option outcome) (s : jsstring)
  : option (jsstring * outcome) :=
  let stop := match k s with Some x => Some ([], x) | None => None end in
  match s with
  | c :: s' =>
      if p c then
        match star p k s' with
        | Some (seg, x) => Some (c :: seg, x)
        | None => stop
        end
      else stop
  | [] => stop
  end.

Definition cons_seg (r : option (jsstring * outcome)) : option outcome :=
  match r with
  | Some (seg, (segs, rest)) => Some (seg :: segs, rest)
  | None => None
  end.

(** [exec r s]: match [r] at the start of [s]. *)
Fixpoint exec (r : pattern) : jsstring -> option outcome :=
  match r with
  | [] => fun s => Some ([], s)
  | One p :: r' => fun s =>
      match s with
      | c :: s' => if p c then emit [c] (exec r' s') else None
      | [] => None
      end
  | Star p :: r' => fun s => cons_seg (star p (exec r') s)
  | Plus p :: r' => fun s =>
      match s with
      | c :: s' =>
          if p c then
            match star p (exec r') s' with
            | Some (seg, (segs, rest)) => Some ((c :: seg) :: segs, rest)
            | None => None
            end
          else None
      | [] => None
      end
  | Opt p :: r' => fun s =>
      match s with
      | c :: s' =>
          if p c then
            match exec r' s' with
            | Some (segs, rest) => Some ([c] :: segs, rest)
            | None => emit [] (exec r' s)
            end
          else emit [] (exec r' s)
      | [] => emit [] (exec r' s)
      end
  | Open _ :: r' => fun s => emit [] (exec r' s)
  | Close _ :: r' => fun s => emit [] (exec r' s)
  end.

(** The text of capture group [n]: what the terms between its parentheses
    consumed. *)
Fixpoint capture (n : nat) (inside : bool) (r : pattern) (segs : list jsstring)
  : jsstring :=
  match r, segs with
  | Open k :: r', _ :: segs' => capture n (inside || Nat.eqb k n) r' segs'
  | Close k :: r', _ :: segs' =>
      if Nat.eqb k n then [] else capture n inside r' segs'
  | _ :: r', seg :: segs' =>
      (if inside then seg else []) ++ capture n inside r' segs'
  | _, _ => []
  end.

(** The result of [String.prototype.match] for a pattern without the [g]
    flag: the index of the match, the matched text and the groups. *)
Record MatchResult : Type := mkMatch {
  index : nat;
  matched : jsstring;            (* match[0] *)
  group : nat -> jsstring        (* match[n] *)
}.

(** The start positions are tried from left to right, the end of the input
    included. *)
Fixpoint search (r : pattern) (i : nat) (s : jsstring) : option MatchResult :=
  match exec r s with
  | Some (segs, _) =>
      Some (mkMatch i (concat segs) (fun n => capture n false r segs))
  | None =>
      match s with
      | [] => None
      | _ :: s' => search r (S i) s'
      end
  end.

Definition match_ (r : pattern) (s : jsstring) : option MatchResult :=
  search r 0 s.

(** *** The replacement templates of [String.prototype.replace]

    [GetSubstitution] for a match without capture groups: in the replacement
    text, [$$] stands for a dollar sign, [$&] for the matched text, [$`] for
    the text before the match and [$'] for the text after it; every other
    character, a lone dollar sign included, stands for itself. *)
Definition DOLLAR : code_unit := 36.

Fixpoint getSubstitution (matched before after : jsstring)
                         (replacement : jsstring) : jsstring :=
  match replacement with
  | [] => []
  | d :: tl =>
      if d =? DOLLAR then
        match tl with
        | [] => [d]
        | c :: tl' =>
            if c =? 36 (* $$ *) then
              DOLLAR :: getSubstitution matched before after tl'
            else if c =? 38 (* $& *) then
              matched ++ getSubstitution matched before after tl'
            else if c =? 96 (* $` *) then
              before ++ getSubstitution matched before after tl'
            else if c =? 39 (* $' *) then
              after ++ getSubstitution matched before after tl'
            else d :: getSubstitution matched before after tl
        end
      else d :: getSubstitution matched before after tl
  end.

(** *** The language of a pattern *)

(** What a term may consume. *)
Definition term_matches (t : term) (seg : jsstring) : Prop :=
  match t with
  | One p => exists c, seg = [c] /\ p c = true
  | Star p => forallb p seg = true
  | Plus p => seg <> [] /\ forallb p seg = true
  | Opt p => seg = [] \/ exists c, seg = [c] /\ p c = true
  | Open _ | Close _ => seg = []
  end.

(** [segs] is a way to read a word of the pattern's language. *)
Definition parses (r : pattern) (segs : list jsstring) : Prop :=
  Forall2 term_matches r segs.

(** The input [s] is at its end or goes on with a character outside [p]. *)
Definition stops (p : charset) (s : jsstring) : Prop :=
  match s with [] => True | c :: _ => p c = false end.

(** [String.prototype.indexOf]. *)
Fixpoint indexOf (pat s : jsstring) : option nat :=
  if startsWith pat s then Some O
  else match s with
       | [] => None
       | _ :: s' => option_map S (indexOf pat s')
       end.

(** [s.replace(pat, replacement)] for a string [pat]: only the first
    occurrence is replaced, and the replacement text is a template. *)
Definition replace (s pat replacement : jsstring) : jsstring :=
  match indexOf pat s with
  | None => s
  | Some i =>
      let before := firstn i s in
      let after := skipn (i + length pat) s in
      before ++ getSubstitution pat before after replacement ++ after
  end.

(** [s.replace(r, replacement)] for a pattern [r] with the [g] flag: the
    matches are found from left to right without overlap; [skip] counts the
    characters of the last match still to be passed over. *)
Fixpoint replaceAll_from (r : pattern) (replacement : jsstring)
                         (before : jsstring) (skip : nat) (s : jsstring)
  : jsstring :=
  match s, skip with
  | c :: s', S k => replaceAll_from r replacement (before ++ [c]) k s'
  | c :: s', O =>
      match exec r s with
      | Some (segs, rest) =>
          getSubstitution (List.concat segs) before rest replacement ++
          match List.concat segs with
          | [] => c :: replaceAll_from r replacement (before ++ [c]) O s'
          | _ :: m =>
              replaceAll_from r replacement (before ++ [c]) (length m) s'
          end
      | None => c :: replaceAll_from r replacement (before ++ [c]) O s'
      end
  | [], _ =>
      match exec r [] with
      | Some _ => getSubstitution [] before [] replacement
      | None => []
      end
  end.

Definition replaceAll (s : jsstring) (r : pattern) (replacement : jsstring)
  : jsstring :=
  replaceAll_from r replacement [] O s.

(** A pattern that is a sequence of literal characters. *)
Definition literal (s : String.string) : pattern :=
  map (fun a => One (chr a)) (String.list_ascii_of_string s).
Arguments literal s%_string.

End Regex.

(** ** The host application *)

Record EditorPosition : Type := { line : nat; ch : nat }.

(** The editor as the plugin sees it: the selected text, the cursor and the
    whole document. *)
Record Editor : Type := {
  selection : jsstring;
  cursor : EditorPosition;
  value : jsstring
}.

(** The lines of a document. *)
Fixpoint splitLines (cur : jsstring) (s : jsstring) : list jsstring :=
  match s with
  | [] => [cur]
  | c :: s' => if c =? LF then cur :: splitLines [] s'
               else splitLines (cur ++ [c]) s'
  end.

Definition getSelection (e : Editor) : jsstring := selection e.
Definition getCursor (e : Editor) : EditorPosition := cursor e.
Definition getValue (e : Editor) : jsstring := value e.
Definition getLine (e : Editor) (n : nat) : jsstring :=
  nth n (splitLines [] (value e)) [].

(** [setValue] replaces the document and loses selection and cursor;
    [setCursor] places the cursor. *)
Definition setValue (e : Editor) (v : jsstring) : Editor :=
  {| selection := []; cursor := {| line := 0; ch := 0 |}; value := v |}.
Definition setCursor (e : Editor) (pos : EditorPosition) : Editor :=
  {| selection := []; cursor := pos; value := value e |}.

(** A front-matter value is compared with [===]: only a string can be equal
    to a string. *)
Inductive FrontValue : Type :=
| FString (s : jsstring)
| FOther.

(** The cached front matter of a note; [fm_url] is its [url] field,
    [None] when the field is absent. *)
Record Frontmatter : Type := { fm_url : option FrontValue }.

Record TFolder : Type := { path : jsstring }.

(** A Markdown file of the vault, with the front matter the metadata cache
    holds for it ([None] when the note has none). *)
Record TFile : Type := {
  basename : jsstring;
  parent : option TFolder;
  frontmatter : option Frontmatter
}.

(** What the plugin asks of the application. *)
Record App : Type := {
  (* workspace.getActiveFile() *)
  getActiveFile : option TFile;
  (* vault.getMarkdownFiles(), in the order of the file index *)
  getMarkdownFiles : list TFile;
  (* vault.create(path, data): [None] when the file is written, [Some msg]
     when the call fails with an error of that message *)
  vaultCreate : jsstring -> jsstring -> option jsstring;
  (* new URL(u).hostname: [None] when the constructor throws *)
  urlHostname : jsstring -> option jsstring;
  (* moment().format(f) at the time of the invocation *)
  momentFormat : jsstring -> jsstring
}.

(** [file.parent?.path]. *)
Definition parentPath (f : TFile) : option jsstring :=
  option_map path (parent f).

(** [o || d] where [o] may be undefined. *)
Definition or_default (o : option jsstring) (d : jsstring) : jsstring :=
  match o with
  | Some p => or_else p d
  | None => d
  end.

(** ** The plugin *)

Inductive NameStrategy : Type := title | domain_date.

Record PagurlSettings : Type := {
  template : jsstring;
  vaultWideNoDuplicate : bool;
  nameStrategy : NameStrategy;
  folders : list jsstring
}.

Record ExtractedLink : Type := {
  fullMatch : jsstring;
  alias : jsstring;
  url : jsstring
}.

(** The result of [findExistingFile]. *)
Record ExistingFile : Type := {
  name : jsstring;
  folder : option jsstring
}.

Record Note : Type := {
  note_name : jsstring;
  note_content : jsstring
}.

(** *** Effects

    What an invocation can change: the editor, the notices shown (oldest
    first) and the files written (path and content, oldest first).  A
    computation returns a value or throws an error, which is represented by
    its message. *)

Record World : Type := {
  editor : Editor;
  notices : list jsstring;
  created : list (jsstring * jsstring)
}.

Inductive completion (A : Type) : Type :=
| Returned (a : A)
| Thrown (message : jsstring).
Arguments Returned {A} a.
Arguments Thrown {A} message.

Definition M (A : Type) : Type := World -> World * completion A.

Definition ret {A} (a : A) : M A := fun w => (w, Returned a).
Definition throw {A} (message : jsstring) : M A := fun w => (w, Thrown message).
Definition bind {A B} (m : M A) (f : A -> M B) : M B :=
  fun w => match m w with
           | (w', Returned a) => f a w'
           | (w', Thrown e) => (w', Thrown e)
           end.
(** [try { m } catch (error) { h(error.message) }]. *)
Definition try_catch {A} (m : M A) (h : jsstring -> M A) : M A :=
  fun w => match m w with
           | (w', Returned a) => (w', Returned a)
           | (w', Thrown e) => h e w'
           end.

Notation "x <- m ;; k" := (bind m (fun x => k))
  (at level 61, m at next level, right associativity).
Notation "m ;;; k" := (bind m (fun _ => k))
  (at level 61, right associativity).

Definition getEditor : M Editor := fun w => (w, Returned (editor w)).
Definition putEditor (e : Editor) : M unit :=
  fun w => ({| editor := e; notices := notices w; created := created w |},
            Returned tt).
(** [new Notice(text)]. *)
Definition Notice (text : jsstring) : M unit :=
  fun w => ({| editor := editor w; notices := notices w ++ [text];
               created := created w |}, Returned tt).

(** The character sets of the Markdown-link pattern: [[^\]]] and [[^\s>]]. *)
Definition aliasChar : Regex.charset := Regex.notIn ["]"%char].
Definition urlChar : Regex.charset :=
  fun c => negb (isSpace c || Regex.chr ">" c).

(** The Markdown-link pattern
    [/\[([^\]]+)\]\(\s*<?(https?:\/\/[^\s>]+)>?\s*\)/i]. *)
Definition mdLinkRegex : Regex.pattern :=
  [ Regex.One (Regex.chr "[");
    Regex.Open 1; Regex.Plus aliasChar; Regex.Close 1;
    Regex.One (Regex.chr "]"); Regex.One (Regex.chr "(");
    Regex.Star isSpace; Regex.Opt (Regex.chr "<");
    Regex.Open 2;
      Regex.One (Regex.chri "h" "H"); Regex.One (Regex.chri "t" "T");
      Regex.One (Regex.chri "t" "T"); Regex.One (Regex.chri "p" "P");
      Regex.Opt (Regex.chri "s" "S");
      Regex.One (Regex.chr ":"); Regex.One (Regex.chr "/");
      Regex.One (Regex.chr "/");
      Regex.Plus urlChar;
    Regex.Close 2;
    Regex.Opt (Regex.chr ">"); Regex.Star isSpace; Regex.One (Regex.chr ")") ].

(** The character class of [sanitizeName]: slash, backslash, [#], [%], [&],
    the braces, [|], [<], [>], [*], [?], [$], [!], the single and the double
    quote, [:] and [@]. *)
Definition unsafeChar : Regex.charset :=
  Regex.oneOf ["/"; "\"; "#"; "%"; "&"; "{"; "}"; "|"; "<"; ">"; "*"; "?";
               "$"; "!"; "'"; "034"; ":"; "@"]%char.

Section Plugin.

Variable app : App.
Variable settings : PagurlSettings.

Definition findMarkdownLink (text : jsstring) : option ExtractedLink :=
  match Regex.match_ mdLinkRegex text with
  | None => None
  | Some m =>
      Some {| fullMatch := Regex.matched m;
              alias := trim (Regex.group m 1);
              url := trim (Regex.group m 2) |}
  end.

Definition extractMarkdownLink (e : Editor) : option ExtractedLink :=
  let selection := getSelection e in
  let cursorPos := getCursor e in
  let lineContent := getLine e (line cursorPos) in
  findMarkdownLink (or_else selection lineContent).

(** [frontmatter && frontmatter?.url === url]. *)
Definition urlMatches (u : jsstring) (file : TFile) : bool :=
  match frontmatter file with
  | Some fm =>
      match fm_url fm with
      | Some (FString s) => jseqb s u
      | _ => false
      end
  | None => false
  end.

(** [settings.vaultWideNoDuplicate || file.parent?.path === folder]. *)
Definition inScope (dir : jsstring) (file : TFile) : bool :=
  vaultWideNoDuplicate settings ||
  match parentPath file with
  | Some p => jseqb p dir
  | None => false
  end.

Definition findExistingFile (u dir : jsstring) : option ExistingFile :=
  let file :=
    find (urlMatches u) (filter (inScope dir) (getMarkdownFiles app)) in
  match file with
  | Some f => Some {| name := basename f; folder := parentPath f |}
  | None => None
  end.

Definition sanitizeName (n : jsstring) : jsstring :=
  Regex.replaceAll n [Regex.One unsafeChar] (js "-").

Definition generateName (link : ExtractedLink) : jsstring :=
  let sanitizedAlias := sanitizeName (alias link) in
  if negb (truthy (url link)) then sanitizedAlias
  else
    match nameStrategy settings with
    | domain_date =>
        match urlHostname app (url link) with
        | Some domain =>
            let date := momentFormat app (js "YYYY-MM-DD") in
            domain ++ js "-" ++ date
        | None => sanitizedAlias
        end
    | _ => sanitizedAlias
    end.

Definition generateContent (link : ExtractedLink) : jsstring :=
  let frontmatter :=
    js "---" ++ [LF] ++
    (if truthy (url link)
     then js "url: " ++ [QUOTE] ++ url link ++ [QUOTE] ++ [LF]
     else []) ++
    js "aliases:" ++ [LF] ++ js "  - " ++ alias link ++ [LF] ++
    js "---" ++ [LF] in
  let content :=
    Regex.replaceAll
      (Regex.replaceAll (template settings) (Regex.literal "{{alias}}")
                        (alias link))
      (Regex.literal "{{url}}") (url link) in
  frontmatter ++ content.

Definition generateNote (link : ExtractedLink) : Note :=
  {| note_name := generateName link; note_content := generateContent link |}.

Definition createFile (n content dir : jsstring) : M unit :=
  let p := dir ++ js "/" ++ n ++ js ".md" in
  fun w =>
    match vaultCreate app p content with
    | None => ({| editor := editor w; notices := notices w;
                  created := created w ++ [(p, content)] |}, Returned tt)
    | Some message => (w, Thrown message)
    end.

(** The wiki link written in place of the Markdown link. *)
Definition wikiLink (n a : jsstring) : jsstring :=
  js "[[" ++ n ++ js "|" ++ or_else a n ++ js "]]".

Definition replaceMarkdownLink (originalMatch n a : jsstring) : M unit :=
  e <- getEditor ;;
  let cursor := getCursor e in
  let content := getValue e in
  let newLink := wikiLink n a in
  let newContent := Regex.replace content originalMatch newLink in
  putEditor (setValue e newContent) ;;;
  e' <- getEditor ;;
  putEditor (setCursor e' cursor).

(** [callback], first block: the folder of the command, or the folder of
    the active file for the command [current]. *)
Definition callback_folder (dir : jsstring) : M jsstring :=
  if jseqb dir (js "current") then
    match getActiveFile app with
    | None => throw (js "No active file to determine its folder.")
    | Some activeFile => ret (or_default (parentPath activeFile) dir)
    end
  else ret dir.

(** [callback], second block: the link, or the selected text as a link
    without url. *)
Definition callback_link : M ExtractedLink :=
  e <- getEditor ;;
  match extractMarkdownLink e with
  | Some link => ret link
  | None =>
      let selectedText := trim (getSelection e) in
      if negb (truthy selectedText) then
        throw (js "Select a valid text or Markdown link")
      else ret {| fullMatch := selectedText;
                  alias := selectedText;
                  url := [] |}
  end.

(** The text of the notice of a conversion. *)
Definition conversionNotice (link : ExtractedLink)
    (existingFile : option ExistingFile) (dir n : jsstring) : jsstring :=
  js "Pagurl: " ++ url link ++ js " " ++
  js (match existingFile with Some _ => "-->" | None => "==>" end) ++
  js " " ++
  or_default (match existingFile with
              | Some f => folder f
              | None => None
              end) dir ++
  js "/" ++ n.

(** [callback], third block: the [try] statement. *)
Definition callback_try (link : ExtractedLink) (dir : jsstring) : M unit :=
  try_catch
    (let existingFile := findExistingFile (url link) dir in
     n <- match existingFile with
          | Some f => ret (name f)
          | None =>
              let note := generateNote link in
              createFile (note_name note) (note_content note) dir ;;;
              ret (note_name note)
          end ;;
     if truthy n then
       replaceMarkdownLink (fullMatch link) n (alias link) ;;;
       Notice (conversionNotice link existingFile dir n)
     else ret tt)
    (fun message => Notice (js "Pagurl error: " ++ message)).

Definition callback (dir : jsstring) : M unit :=
  dir <- callback_folder dir ;;
  link <- callback_link ;;
  callback_try link dir.

End Plugin.

(** ** The shape of a Markdown link

    The vocabulary of the specification: a link is written
    [[alias](url)], where the alias is a non-empty run of characters other
    than the closing bracket, the url starts with the scheme [http] or
    [https] in any letter case followed by [://] and a non-empty run of
    characters other than white space and [>]; the url may stand between
    angle brackets, and white space may surround it. *)

Definition lowerAscii (c : code_unit) : code_unit :=
  if (65 <=? c) && (c <=? 90) then c + 32 else c.

Definition isHttpScheme (s : jsstring) : bool :=
  jseqb (map lowerAscii s) (js "http") || jseqb (map lowerAscii s) (js "https").

Definition aliasText (a : jsstring) : Prop :=
  a <> [] /\ forallb aliasChar a = true.

Definition httpUrl (u : jsstring) : Prop :=
  exists scheme rest,
    u = scheme ++ js "://" ++ rest /\ isHttpScheme scheme = true /\
    rest <> [] /\ forallb urlChar rest = true.

Definition optional (c : String.string) (s : jsstring) : Prop :=
  s = [] \/ s = js c.
Arguments optional c%_string s.

Definition allSpace (ws : jsstring) : Prop := forallb isSpace ws = true.

(** The text of a link from its parts. *)
Definition mdLink (a ws0 lb u rb ws : jsstring) : jsstring :=
  js "[" ++ a ++ js "](" ++ ws0 ++ lb ++ u ++ rb ++ ws ++ js ")".

Definition linkParts (a ws0 lb u rb ws : jsstring) : Prop :=
  aliasText a /\ allSpace ws0 /\ optional "<" lb /\ httpUrl u /\
  optional ">" rb /\ allSpace ws.

(** The pieces of a link in the order of the terms of [mdLinkRegex]. *)
Definition linkSegments (a ws0 lb scheme rest rb ws : jsstring)
  : list jsstring :=
  [ js "["; []; a; []; js "]"; js "("; ws0; lb; [] ] ++
  map (fun c => [c]) (firstn 4 scheme) ++
  [ skipn 4 scheme; js ":"; js "/"; js "/"; rest; []; rb; ws; js ")" ].

(** ** Occurrences of a text in a document *)

Definition occursIn (pat s : jsstring) : Prop :=
  exists before after, s = before ++ pat ++ after.

(** [s] is [before ++ pat ++ after], and [pat] does not occur earlier. *)
Definition firstOccurrence (pat s before after : jsstring) : Prop :=
  s = before ++ pat ++ after /\
  forall before' after', s = before' ++ pat ++ after' ->
                         (length before <= length before')%nat.

(** The characters [sanitizeName] replaces, as the specification lists
    them. *)
Definition unsafeSet : jsstring :=
  js "/\#%&{}|<>*?$!'" ++ [QUOTE] ++ js ":@".

Definition DASH : code_unit := 45.

Definition sanitizeChar (c : code_unit) : code_unit :=
  if existsb (N.eqb c) unsafeSet then DASH else c.

(** ** Vocabulary for the outcome of an invocation *)

(** The [url] field of the front matter of a note. *)
Definition frontUrl (f : TFile) : option FrontValue :=
  match frontmatter f with
  | Some fm => fm_url fm
  | None => None
  end.

(** A note is looked at by the duplicate lookup for the folder [dir]. *)
Definition considered (settings : PagurlSettings) (dir : jsstring) (f : TFile)
  : Prop :=
  vaultWideNoDuplicate settings = true \/ parentPath f = Some dir.

(** The editor after the replacement step for the note name [n]. *)
Definition rewritten (e : Editor) (link : ExtractedLink) (n : jsstring)
  : Editor :=
  {| selection := [];
     cursor := cursor e;
     value := Regex.replace (value e) (fullMatch link)
                            (wikiLink n (alias link)) |}.

(** The path of a new note. *)
Definition notePath (dir n : jsstring) : jsstring :=
  dir ++ js "/" ++ n ++ js ".md".

(** The messages of the two errors thrown before the [try] statement. *)
Definition NoActiveFile : jsstring :=
  js "No active file to determine its folder.".
Definition NoValidInput : jsstring :=
  js "Select a valid text or Markdown link".

(** ** A small vault for the examples *)

Module Example.

Definition note (n dir : String.string) (u : option FrontValue) : TFile :=
  {| basename := js n;
     parent := Some {| path := js dir |};
     frontmatter := Some {| fm_url := u |} |}.
Arguments note n%_string dir%_string u.

(** A vault with three notes; creating a file fails where one exists. *)
Definition app : App :=
  {| getActiveFile := None;
     getMarkdownFiles :=
       [ note "old" "notes" (Some (FString (js "https://x.test")));
         note "draft" "notes" (Some (FString []));
         note "other" "archive" (Some (FString (js "https://y.test"))) ];
     vaultCreate := fun p _ =>
       if existsb (jseqb p)
            [js "notes/old.md"; js "notes/draft.md"; js "archive/other.md"]
       then Some (js "File already exists.") else None;
     urlHostname := fun u =>
       if jseqb u (js "https://example.com/x") then Some (js "example.com")
       else if jseqb u (js "https://y.test") then Some (js "y.test")
       else None;
     momentFormat := fun _ => js "2026-11-02" |}.

Definition settings : PagurlSettings :=
  {| template := js "{{alias}}: {{url}}";
     vaultWideNoDuplicate := false;
     nameStrategy := title;
     folders := [js "notes"; js "archive"] |}.

(** An editor with the one line [text], the cursor in it, and the
    selection [sel]. *)
Definition world (sel text : String.string) : World :=
  {| editor := {| selection := js sel;
                  cursor := {| line := 0; ch := 1 |};
                  value := js text |};
     notices := [];
     created := [] |}.
Arguments world sel%_string text%_string.

End Example.

(** ** Literal substitution

    The substitution the specification describes for the template: every
    occurrence of the placeholder [pat], found from left to right without
    overlap, is replaced by the value [v] as it is.  [skip] counts the
    characters of the last occurrence still to be passed over. *)
Fixpoint substitute_from (pat v : jsstring) (skip : nat) (s : jsstring)
  : jsstring :=
  match s, skip with
  | [], _ => []
  | _ :: s', S k => substitute_from pat v k s'
  | c :: s', O =>
      if startsWith pat s then v ++ substitute_from pat v (length pat - 1) s'
      else c :: substitute_from pat v O s'
  end.

Definition substituteAll (s : jsstring) (pat : String.string) (v : jsstring)
  : jsstring :=
  substitute_from (js pat) v O s.
Arguments substituteAll s pat%_string v.

(** The front-matter block of a new note. *)
Definition frontMatterBlock (link : ExtractedLink) : jsstring :=
  js "---" ++ [LF] ++
  (match url link with
   | [] => []
   | _ :: _ => js "url: " ++ [QUOTE] ++ url link ++ [QUOTE] ++ [LF]
   end) ++
  js "aliases:" ++ [LF] ++ js "  - " ++ alias link ++ [LF] ++
  js "---" ++ [LF].

(** ** Settings, their storage and the commands *)

(** [DEFAULT_SETTINGS]. *)
Definition DEFAULT_SETTINGS : PagurlSettings :=
  {| template := [];
     vaultWideNoDuplicate := false;
     nameStrategy := title;
     folders := [] |}.

(** The object [loadData()] returns: each setting is present or not. *)
Record StoredData : Type := {
  stored_template : option jsstring;
  stored_vaultWideNoDuplicate : option bool;
  stored_nameStrategy : option NameStrategy;
  stored_folders : option (list jsstring)
}.

(** One property of [Object.assign({}, defaults, data)]. *)
Definition assigned {A : Type} (default : A) (o : option A) : A :=
  match o with
  | Some v => v
  | None => default
  end.

(** [loadSettings]; [data] is [None] when nothing was saved. *)
Definition loadSettings (data : option StoredData) : PagurlSettings :=
  match data with
  | None => DEFAULT_SETTINGS
  | Some d =>
      {| template := assigned (template DEFAULT_SETTINGS) (stored_template d);
         vaultWideNoDuplicate :=
           assigned (vaultWideNoDuplicate DEFAULT_SETTINGS)
                    (stored_vaultWideNoDuplicate d);
         nameStrategy :=
           assigned (nameStrategy DEFAULT_SETTINGS) (stored_nameStrategy d);
         folders := assigned (folders DEFAULT_SETTINGS) (stored_folders d) |}
  end.

(** [saveSettings]: the settings object is what [saveData] stores. *)
Definition saveSettings (s : PagurlSettings) : StoredData :=
  {| stored_template := Some (template s);
     stored_vaultWideNoDuplicate := Some (vaultWideNoDuplicate s);
     stored_nameStrategy := Some (nameStrategy s);
     stored_folders := Some (folders s) |}.

Definition COMMA : code_unit := 44.

(** [s.split(sep)] for a separator of one character; [cur] is the piece
    being read. *)
Fixpoint split (sep : code_unit) (cur s : jsstring) : list jsstring :=
  match s with
  | [] => [cur]
  | c :: s' => if c =? sep then cur :: split sep [] s'
               else split sep (cur ++ [c]) s'
  end.

(** [l.join(sep)]. *)
Fixpoint join (sep : code_unit) (l : list jsstring) : jsstring :=
  match l with
  | [] => []
  | [x] => x
  | x :: l' => x ++ sep :: join sep l'
  end.

(** A command: its id, its name, and the folder its callback passes to
    [callback]. *)
Record Command : Type := {
  cmd_id : jsstring;
  cmd_name : jsstring;
  cmd_folder : jsstring
}.

(** [command(name)]. *)
Definition command (n : jsstring) : Command :=
  {| cmd_id := n; cmd_name := n; cmd_folder := n |}.

(** The plugin: its settings, the stored data and the commands it has
    registered, oldest first. *)
Record Plugin : Type := {
  plugin_settings : PagurlSettings;
  plugin_data : option StoredData;
  plugin_commands : list Command
}.

(** [addCommands(names)] on the list of registered commands. *)
Definition addCommands (names : list jsstring) (registered : list Command)
  : list Command :=
  fold_left (fun cs n => cs ++ [command n]) names registered.

(** [onload]: the settings are loaded, one command is registered for each
    folder and then the command [current]. *)
Definition onload (data : option StoredData) : Plugin :=
  let s := loadSettings data in
  {| plugin_settings := s;
     plugin_data := data;
     plugin_commands :=
       addCommands (folders s) [] ++ [command (js "current")] |}.

(** [editorCallback] of a command: [callback] reads the settings of the
    plugin when the command runs. *)
Definition editorCallback (app : App) (p : Plugin) (c : Command) : M unit :=
  callback app (plugin_settings p) (cmd_folder c).

(** The settings tab.  The text area shows the folders joined by commas;
    a change of the text, or of the toggle, updates the settings and saves
    them. *)
Definition display_folders (p : Plugin) : jsstring :=
  join COMMA (folders (plugin_settings p)).

Definition withSettings (p : Plugin) (s : PagurlSettings) : Plugin :=
  {| plugin_settings := s;
     plugin_data := Some (saveSettings s);
     plugin_commands := plugin_commands p |}.

Definition onChange_folders (p : Plugin) (v : jsstring) : Plugin :=
  withSettings p
    {| template := template (plugin_settings p);
       vaultWideNoDuplicate := vaultWideNoDuplicate (plugin_settings p);
       nameStrategy := nameStrategy (plugin_settings p);
       folders := map trim (split COMMA [] v) |}.

Definition onChange_toggle (p : Plugin) (v : bool) : Plugin :=
  withSettings p
    {| template := template (plugin_settings p);
       vaultWideNoDuplicate := v;
       nameStrategy := nameStrategy (plugin_settings p);
       folders := folders (plugin_settings p) |}.

(** ** Vocabulary of the further properties *)

(** A name without any of the characters [sanitizeName] replaces. *)
Definition safeName (s : jsstring) : Prop :=
  forallb (fun c => negb (unsafeChar c)) s = true.

(** The text [s] contains a Markdown link. *)
Definition containsLink (s : jsstring) : Prop :=
  exists pre a ws0 lb u rb ws post,
    linkParts a ws0 lb u rb ws /\ s = pre ++ mdLink a ws0 lb u rb ws ++ post.

(** No character of [s] is a dollar sign. *)
Definition dollarFree (s : jsstring) : Prop :=
  forall c, In c s -> c <> Regex.DOLLAR.

(** The text has no white space at either end. *)
Definition trimmed (s : jsstring) : Prop :=
  match s with
  | [] => True
  | c :: _ => isSpace c = false /\ isSpace (last s c) = false
  end.

(** No dollar sign of [s] starts one of the replacement patterns [$$],
    [$&], [$`] and [$']. *)
Fixpoint templateFree (s : jsstring) : bool :=
  match s with
  | [] => true
  | d :: tl =>
      (if d =? Regex.DOLLAR then
         match tl with
         | [] => true
         | c :: _ => negb ((c =? 36) || (c =? 38) || (c =? 96) || (c =? 39))
         end
       else true) && templateFree tl
  end.

(** A document with the same link in two lines, the cursor in the second
    line. *)
Definition twoLinks : World :=
  {| editor := {| selection := [];
                  cursor := {| line := 1; ch := 2 |};
                  value := js "p [a](http://x.com) q" ++ [LF] ++
                           js "[a](http://x.com)" |};
     notices := [];
     created := [] |}.

(** The example vault with the note [notes/old] active. *)
Definition activeApp : App :=
  {| getActiveFile := Some (Example.note "old" "notes" None);
     getMarkdownFiles := getMarkdownFiles Example.app;
     vaultCreate := vaultCreate Example.app;
     urlHostname := urlHostname Example.app;
     momentFormat := momentFormat Example.app |}.
(** ** When the extracted link is the link as written *)

(** The end of [mdLinkRegex], after the url. *)
Definition closingPattern : Regex.pattern :=
  [ Regex.Close 2; Regex.Opt (Regex.chr ">"); Regex.Star isSpace;
    Regex.One (Regex.chr ")") ].

(** The text [s] goes on as the end of a link does: an optional [>], white
    space and a closing parenthesis. *)
Definition closesLink (s : jsstring) : Prop :=
  exists g w t, optional ">" g /\ allSpace w /\ s = g ++ w ++ js ")" ++ t.

(** The url of a link written before [post] ends where it is written: it
    is closed by [>] or white space, or else the characters that follow the
    link, up to the next white space, [>] or the end of the text, hold no
    closing parenthesis and what comes then does not go on as the end of a
    link. *)
Definition urlDelimited (rb ws post : jsstring) : Prop :=
  rb ++ ws <> [] \/
  exists q post2,
    post = q ++ post2 /\ forallb urlChar q = true /\
    ~ In (N_of_ascii ")") q /\ Regex.stops urlChar post2 /\
    ~ closesLink post2.

(** No Markdown link of [text] starts inside its prefix [pre]. *)
Definition firstLinkAfter (pre text : jsstring) : Prop :=
  forall pre' a ws0 lb u rb ws post',
    linkParts a ws0 lb u rb ws ->
    text = pre' ++ mdLink a ws0 lb u rb ws ++ post' ->
    (length pre <= length pre')%nat.

(** * Properties *)

(** ** Strings *)

Lemma cu_eqb_eq (a b : code_unit) : cu_eqb a b = true <-> a = b.
Proof. apply N.eqb_eq. Qed.

Lemma jseqb_eq (a b : jsstring) : jseqb a b = true <-> a = b.
Proof.
  revert b; induction a as [|x a IH]; intros [|y b]; simpl; split;
    try congruence; try reflexivity.
  - intros H. apply andb_true_iff in H as [H1 H2].
    apply cu_eqb_eq in H1. apply IH in H2. congruence.
  - intros H. injection H as -> ->. apply andb_true_iff. split.
    + now apply cu_eqb_eq.
    + now apply IH.
Qed.

Lemma jseqb_refl (a : jsstring) : jseqb a a = true.
Proof. now apply jseqb_eq. Qed.

Lemma startsWith_app (p s : jsstring) : startsWith p (p ++ s) = true.
Proof.
  induction p as [|x p IH]; simpl; [reflexivity|].
  rewrite IH. unfold cu_eqb. now rewrite N.eqb_refl.
Qed.

Lemma startsWith_prefix (p s : jsstring) :
  startsWith p s = true -> exists t, s = p ++ t.
Proof.
  revert s; induction p as [|x p IH]; intros s H; simpl in *.
  - now exists s.
  - destruct s as [|y s]; [discriminate|].
    apply andb_true_iff in H as [H1 H2]. apply cu_eqb_eq in H1. subst y.
    destruct (IH _ H2) as [t ->]. now exists t.
Qed.

(** ** The regular-expression engine *)

Module RegexFacts.
Import Regex.

Lemma star_sound p k s seg x :
  star p k s = Some (seg, x) ->
  forallb p seg = true /\ exists s', s = seg ++ s' /\ k s' = Some x.
Proof.
  revert seg x; induction s as [|c s IH]; intros seg x; simpl.
  - destruct (k []) eqn:E; [|discriminate].
    intros [= <- <-]. split; [reflexivity|]. now exists [].
  - assert (Hstop : match k (c :: s) with
                    | Some x0 => Some ([], x0) | None => None end
                    = Some (seg, x) ->
                    forallb p seg = true /\
                    exists s', c :: s = seg ++ s' /\ k s' = Some x).
    { destruct (k (c :: s)) eqn:E; [|discriminate].
      intros [= <- <-]. split; [reflexivity|]. now exists (c :: s). }
    destruct (p c) eqn:Hp; [|exact Hstop].
    destruct (star p k s) as [[seg' x']|] eqn:E; [|exact Hstop].
    intros [= <- <-]. destruct (IH _ _ eq_refl) as [Hall [s' [-> Hk]]].
    split; [simpl; now rewrite Hp|]. now exists s'.
Qed.

Lemma star_some p k s : k s <> None -> star p k s <> None.
Proof.
  intros Hk. destruct s as [|c s]; simpl.
  - destruct (k []); congruence.
  - destruct (p c); [destruct (star p k s) as [[? ?]|]|];
      try congruence; destruct (k (c :: s)); congruence.
Qed.

Lemma star_complete p k seg s :
  forallb p seg = true -> k s <> None -> star p k (seg ++ s) <> None.
Proof.
  induction seg as [|c seg IH]; simpl; intros Hall Hk.
  - now apply star_some.
  - apply andb_true_iff in Hall as [Hc Hall]. rewrite Hc.
    specialize (IH Hall Hk).
    destruct (star p k (seg ++ s)) as [[? ?]|]; congruence.
Qed.

(** A greedy quantifier takes the whole run when the rest of the pattern
    matches behind it. *)
Lemma star_run p k seg s x :
  forallb p seg = true ->
  match s with [] => True | c :: _ => p c = false end ->
  k s = Some x ->
  star p k (seg ++ s) = Some (seg, x).
Proof.
  intros Hall Hs Hk. induction seg as [|c seg IH]; simpl.
  - destruct s as [|c s]; simpl; rewrite Hk; [reflexivity|].
    now rewrite Hs.
  - simpl in Hall. apply andb_true_iff in Hall as [Hc Hall].
    rewrite Hc, (IH Hall). reflexivity.
Qed.

(** It gives back the last character when the pattern cannot match at the
    end of the input and can match before that character. *)
Lemma star_back p k seg c x :
  forallb p seg = true -> p c = true ->
  k [] = None -> k [c] = Some x ->
  star p k (seg ++ [c]) = Some (seg, x).
Proof.
  intros Hall Hc Hend Hk. induction seg as [|d seg IH]; simpl.
  - rewrite Hc, Hend, Hk. reflexivity.
  - simpl in Hall. apply andb_true_iff in Hall as [Hd Hall].
    rewrite Hd, (IH Hall). reflexivity.
Qed.

Lemma exec_sound r : forall s segs rest,
  exec r s = Some (segs, rest) ->
  parses r segs /\ s = concat segs ++ rest.
Proof.
  unfold parses.
  induction r as [|t r IH]; intros s segs rest; simpl.
  - intros [= <- <-]. split; [constructor | reflexivity].
  - destruct t as [p|p|p|p|n|n].
    + destruct s as [|c s]; [discriminate|].
      destruct (p c) eqn:Hp; [|discriminate].
      destruct (exec r s) as [[segs' rest']|] eqn:E; [|discriminate].
      intros [= <- <-]. destruct (IH _ _ _ E) as [HF ->].
      split; [constructor; [now exists c | exact HF] | reflexivity].
    + destruct (star p (exec r) s) as [[seg [segs' rest']]|] eqn:E;
        [|discriminate].
      intros [= <- <-]. apply star_sound in E as [Hall [s' [-> Hk]]].
      destruct (IH _ _ _ Hk) as [HF ->].
      split; [constructor; assumption | simpl; now rewrite <- app_assoc].
    + destruct s as [|c s]; [discriminate|].
      destruct (p c) eqn:Hp; [|discriminate].
      destruct (star p (exec r) s) as [[seg [segs' rest']]|] eqn:E;
        [|discriminate].
      intros [= <- <-]. apply star_sound in E as [Hall [s' [-> Hk]]].
      destruct (IH _ _ _ Hk) as [HF ->].
      split.
      * constructor; [|assumption]. split; [discriminate|].
        simpl. now rewrite Hp.
      * simpl. now rewrite <- app_assoc.
    + assert (Hskip : emit [] (exec r s) = Some (segs, rest) ->
                      Forall2 term_matches (Opt p :: r) segs /\
                      s = concat segs ++ rest).
      { destruct (exec r s) as [[segs' rest']|] eqn:E; [|discriminate].
        intros [= <- <-]. destruct (IH _ _ _ E) as [HF ->].
        split; [constructor; [now left | exact HF] | reflexivity]. }
      destruct s as [|c s]; [exact Hskip|].
      destruct (p c) eqn:Hp; [|exact Hskip].
      destruct (exec r s) as [[segs' rest']|] eqn:E; [|exact Hskip].
      intros [= <- <-]. destruct (IH _ _ _ E) as [HF ->].
      split; [constructor; [right; now exists c | exact HF] | reflexivity].
    + destruct (exec r s) as [[segs' rest']|] eqn:E; [|discriminate].
      intros [= <- <-]. destruct (IH _ _ _ E) as [HF ->].
      split; [constructor; [reflexivity | exact HF] | reflexivity].
    + destruct (exec r s) as [[segs' rest']|] eqn:E; [|discriminate].
      intros [= <- <-]. destruct (IH _ _ _ E) as [HF ->].
      split; [constructor; [reflexivity | exact HF] | reflexivity].
Qed.

Lemma emit_some seg o : o <> None -> emit seg o <> None.
Proof. destruct o as [[? ?]|]; simpl; congruence. Qed.

Lemma exec_complete r : forall segs rest,
  parses r segs -> exec r (concat segs ++ rest) <> None.
Proof.
  unfold parses.
  induction r as [|t r IH]; intros segs rest HF; inversion HF; subst; simpl.
  - discriminate.
  - match goal with H : Forall2 _ r ?l |- _ =>
      specialize (IH l rest H); rename l into segs' end.
    match goal with H : term_matches t ?y |- _ => rename y into seg;
      rename H into Ht end.
    destruct t as [p|p|p|p|n|n]; simpl in Ht.
    + destruct Ht as [c [-> Hp]]. simpl. rewrite Hp. now apply emit_some.
    + rewrite <- app_assoc.
      pose proof (star_complete p (exec r) seg _ Ht IH) as Hs.
      destruct (star p (exec r) (seg ++ concat segs' ++ rest))
        as [[? [? ?]]|]; simpl; congruence.
    + destruct Ht as [Hne Hall]. destruct seg as [|c seg]; [congruence|].
      simpl in Hall. apply andb_true_iff in Hall as [Hc Hall].
      simpl. rewrite Hc. rewrite <- app_assoc.
      pose proof (star_complete p (exec r) seg _ Hall IH) as Hs.
      destruct (star p (exec r) (seg ++ concat segs' ++ rest))
        as [[? [? ?]]|]; congruence.
    + destruct Ht as [-> | [c [-> Hp]]]; simpl.
      * destruct (concat segs' ++ rest) as [|c s] eqn:E.
        -- now apply emit_some.
        -- destruct (p c); [|now apply emit_some].
           destruct (exec r s) as [[? ?]|]; [congruence|].
           now apply emit_some.
      * rewrite Hp. destruct (exec r (concat segs' ++ rest)) as [[? ?]|];
          congruence.
    + subst seg. simpl. now apply emit_some.
    + subst seg. simpl. now apply emit_some.
Qed.

(** A greedy quantifier fails when the rest of the pattern matches after
    none of the runs it can take. *)
Lemma star_none p k : forall s,
  (forall t1 t2, s = t1 ++ t2 -> forallb p t1 = true -> k t2 = None) ->
  star p k s = None.
Proof.
  induction s as [|c s IH]; intros H; simpl.
  - now rewrite (H [] [] eq_refl eq_refl).
  - rewrite (H [] (c :: s) eq_refl eq_refl).
    destruct (p c) eqn:Hc; [|reflexivity].
    rewrite IH; [reflexivity|].
    intros t1 t2 -> Ht1. apply (H (c :: t1) t2); simpl; [reflexivity|].
    now rewrite Hc.
Qed.

(** It takes the run [seg] when the rest of the pattern matches behind it
    and after no longer run. *)
Lemma star_longest p k seg s x :
  forallb p seg = true -> k s = Some x ->
  (forall t1 t2, s = t1 ++ t2 -> t1 <> [] -> forallb p t1 = true ->
                 k t2 = None) ->
  star p k (seg ++ s) = Some (seg, x).
Proof.
  intros Hall Hk Hfail.
  assert (H0 : star p k s = Some ([], x)).
  { destruct s as [|c s]; simpl; rewrite Hk; [reflexivity|].
    destruct (p c) eqn:Hc; [|reflexivity].
    rewrite star_none; [reflexivity|].
    intros t1 t2 -> Ht1. apply (Hfail (c :: t1) t2); simpl;
      [reflexivity | discriminate | now rewrite Hc]. }
  induction seg as [|d seg IH]; simpl; [exact H0|].
  simpl in Hall. apply andb_true_iff in Hall as [Hd Hall].
  now rewrite Hd, (IH Hall).
Qed.

End RegexFacts.

Module SearchFacts.
Import Regex RegexFacts.

Lemma search_sound r : forall s i m,
  search r i s = Some m ->
  exists pre segs post,
    s = pre ++ concat segs ++ post /\ parses r segs /\
    index m = (i + length pre)%nat /\
    matched m = concat segs /\
    (forall n, group m n = capture n false r segs).
Proof.
  induction s as [|c s IH]; intros i m; simpl.
  - destruct (exec r []) as [[segs rest]|] eqn:E; [|discriminate].
    intros [= <-]. apply exec_sound in E as [HP Hs].
    exists [], segs, rest. simpl. repeat split; auto.
  - destruct (exec r (c :: s)) as [[segs rest]|] eqn:E.
    + intros [= <-]. apply exec_sound in E as [HP Hs].
      exists [], segs, rest. simpl. repeat split; auto.
    + intros H. apply IH in H as (pre & segs & post & -> & HP & Hi & Hm & Hg).
      exists (c :: pre), segs, post. simpl. repeat split; auto. lia.
Qed.

Lemma search_complete r pre : forall i segs post,
  parses r segs -> search r i (pre ++ concat segs ++ post) <> None.
Proof.
  induction pre as [|c pre IH]; intros i segs post HP.
  - simpl. pose proof (exec_complete r segs post HP) as Hc.
    destruct (concat segs ++ post) as [|c s];
      simpl; destruct (exec r _) as [[? ?]|]; congruence.
  - simpl. destruct (exec r (c :: pre ++ concat segs ++ post)) as [[? ?]|];
      [discriminate|]. now apply IH.
Qed.

(** Positions at which the pattern cannot start are passed over. *)
Lemma search_skip r pre : forall i s,
  (forall c t, In c pre -> exec r (c :: t) = None) ->
  search r i (pre ++ s) = search r (i + length pre) s.
Proof.
  induction pre as [|c pre IH]; intros i s H; simpl.
  - f_equal. lia.
  - rewrite H by now left. rewrite IH by (intros; apply H; now right).
    f_equal. lia.
Qed.

Lemma search_found r i s segs rest :
  exec r s = Some (segs, rest) ->
  search r i s = Some (mkMatch i (concat segs)
                               (fun n => capture n false r segs)).
Proof. intros E. destruct s; simpl; now rewrite E. Qed.

End SearchFacts.

(** ** The Markdown-link pattern *)

Module LinkFacts.
Import Regex RegexFacts SearchFacts.

Lemma chr_true a c : chr a c = true -> c = N_of_ascii a.
Proof. unfold chr. apply N.eqb_eq. Qed.

Lemma chr_refl a : chr a (N_of_ascii a) = true.
Proof. unfold chr. apply N.eqb_refl. Qed.

Lemma chri_true l u c :
  chri l u c = true -> c = N_of_ascii l \/ c = N_of_ascii u.
Proof.
  unfold chri. intros H. apply orb_true_iff in H as [H|H];
    apply N.eqb_eq in H; auto.
Qed.

Lemma lowerAscii_inv c n :
  lowerAscii c = n -> (97 <= n <= 122) -> c = n \/ c = n - 32.
Proof.
  unfold lowerAscii. intros H Hn.
  destruct ((65 <=? c) && (c <=? 90)) eqn:E.
  - right. lia.
  - now left.
Qed.

(** A letter of the scheme is matched by its case-insensitive set exactly
    when its lower-case form is the letter. *)
Lemma chri_lower l u c :
  (97 <= N_of_ascii l <= 122) -> N_of_ascii u = N_of_ascii l - 32 ->
  chri l u c = true <-> lowerAscii c = N_of_ascii l.
Proof.
  intros Hl Hu. split.
  - intros H. apply chri_true in H as [-> | ->]; unfold lowerAscii.
    + replace ((65 <=? N_of_ascii l) && (N_of_ascii l <=? 90)) with false;
        [reflexivity|].
      symmetry. apply andb_false_iff. right. apply N.leb_gt. lia.
    + replace ((65 <=? N_of_ascii u) && (N_of_ascii u <=? 90)) with true;
        [lia|].
      symmetry. apply andb_true_iff. split; apply N.leb_le; lia.
  - intros H. apply lowerAscii_inv in H; [|exact Hl].
    unfold chri. apply orb_true_iff.
    destruct H as [-> | ->]; [left | right]; apply N.eqb_eq; congruence.
Qed.

Ltac letter := split; [vm_compute; discriminate | vm_compute; discriminate].

Lemma chri_h c : chri "h" "H" c = true <-> lowerAscii c = 104.
Proof. apply (chri_lower "h" "H"); [letter | reflexivity]. Qed.
Lemma chri_t c : chri "t" "T" c = true <-> lowerAscii c = 116.
Proof. apply (chri_lower "t" "T"); [letter | reflexivity]. Qed.
Lemma chri_p c : chri "p" "P" c = true <-> lowerAscii c = 112.
Proof. apply (chri_lower "p" "P"); [letter | reflexivity]. Qed.
Lemma chri_s c : chri "s" "S" c = true <-> lowerAscii c = 115.
Proof. apply (chri_lower "s" "S"); [letter | reflexivity]. Qed.

(** The schemes the pattern accepts. *)
Lemma isHttpScheme_inv s :
  isHttpScheme s = true ->
  exists h t1 t2 p o,
    s = [h; t1; t2; p] ++ o /\
    chri "h" "H" h = true /\ chri "t" "T" t1 = true /\
    chri "t" "T" t2 = true /\ chri "p" "P" p = true /\
    (o = [] \/ exists c, o = [c] /\ chri "s" "S" c = true).
Proof.
  unfold isHttpScheme. intros H. apply orb_true_iff in H.
  destruct s as [|h [|t1 [|t2 [|p o]]]];
    try (destruct H as [H|H]; apply jseqb_eq in H; discriminate H).
  exists h, t1, t2, p, o.
  assert (Hl : lowerAscii h = 104 /\ lowerAscii t1 = 116 /\
               lowerAscii t2 = 116 /\ lowerAscii p = 112 /\
               (o = [] \/ exists c, o = [c] /\ lowerAscii c = 115)).
  { destruct H as [H|H]; apply jseqb_eq in H; simpl in H.
    - injection H as H1 H2 H3 H4 H5. apply map_eq_nil in H5.
      repeat split; auto.
    - destruct o as [|c [|d o]]; simpl in H; try discriminate H.
      injection H as H1 H2 H3 H4 H5.
      repeat split; auto. right. now exists c. }
  destruct Hl as (H1 & H2 & H3 & H4 & H5).
  split; [reflexivity|].
  rewrite chri_h, !chri_t, chri_p. repeat split; auto.
  destruct H5 as [-> | [c [-> Hc]]]; [now left | right].
  exists c. now rewrite chri_s.
Qed.

Lemma isHttpScheme_intro h t1 t2 p o :
  chri "h" "H" h = true -> chri "t" "T" t1 = true ->
  chri "t" "T" t2 = true -> chri "p" "P" p = true ->
  (o = [] \/ exists c, o = [c] /\ chri "s" "S" c = true) ->
  isHttpScheme ([h; t1; t2; p] ++ o) = true.
Proof.
  rewrite chri_h, !chri_t, chri_p. intros H1 H2 H3 H4 Ho.
  unfold isHttpScheme. apply orb_true_iff.
  destruct Ho as [-> | [c [-> Hc]]].
  - left. simpl. rewrite H1, H2, H3, H4. reflexivity.
  - right. apply chri_s in Hc. simpl. rewrite H1, H2, H3, H4, Hc. reflexivity.
Qed.

Lemma parses_cons t r segs :
  parses (t :: r) segs ->
  exists seg segs', segs = seg :: segs' /\ term_matches t seg /\ parses r segs'.
Proof. intros H. inversion H; subst. eauto. Qed.

Lemma parses_nil segs : parses [] segs -> segs = [].
Proof. intros H. now inversion H. Qed.

Ltac next_term H s Hs :=
  apply parses_cons in H;
  let l := fresh "l" in
  destruct H as (s & l & -> & Hs & H); simpl in Hs.

Ltac one_char Hs c :=
  let E := fresh in destruct Hs as (c & E & Hs); subst.

Lemma optional_of_opt a seg :
  seg = [] \/ (exists c, seg = [c] /\ chr a c = true) ->
  seg = [] \/ seg = [N_of_ascii a].
Proof.
  intros [-> | (c & -> & Hc)]; [now left | right].
  apply chr_true in Hc. now subst.
Qed.

(** Every word the pattern reads is a link, and the groups are its alias
    and its url. *)
Lemma parses_link segs :
  parses mdLinkRegex segs ->
  exists a ws0 lt u gt ws,
    concat segs = mdLink a ws0 lt u gt ws /\
    linkParts a ws0 lt u gt ws /\
    capture 1 false mdLinkRegex segs = a /\
    capture 2 false mdLinkRegex segs = u.
Proof.
  unfold mdLinkRegex. intros H.
  next_term H s0 H0. one_char H0 c0. apply chr_true in H0. subst c0.
  next_term H s1 H1. subst s1.
  next_term H a Ha.
  next_term H s3 H3. subst s3.
  next_term H s4 H4. one_char H4 c4. apply chr_true in H4. subst c4.
  next_term H s5 H5. one_char H5 c5. apply chr_true in H5. subst c5.
  next_term H ws0 Hws0.
  next_term H lb Hlt. apply optional_of_opt in Hlt.
  next_term H s8 H8. subst s8.
  next_term H s9 Hh. one_char Hh h.
  next_term H s10 Ht1. one_char Ht1 t1.
  next_term H s11 Ht2. one_char Ht2 t2.
  next_term H s12 Hp. one_char Hp p.
  next_term H so Hso.
  next_term H s14 H14. one_char H14 c14. apply chr_true in H14. subst c14.
  next_term H s15 H15. one_char H15 c15. apply chr_true in H15. subst c15.
  next_term H s16 H16. one_char H16 c16. apply chr_true in H16. subst c16.
  next_term H rest Hrest.
  next_term H s18 H18. subst s18.
  next_term H rb Hgt. apply optional_of_opt in Hgt.
  next_term H ws Hws.
  next_term H s21 H21. one_char H21 c21. apply chr_true in H21. subst c21.
  apply parses_nil in H. subst.
  exists a, ws0, lb, (([h; t1; t2; p] ++ so) ++ js "://" ++ rest), rb, ws.
  split; [|split; [|split]].
  - unfold mdLink. simpl. rewrite ?app_nil_r, <- ?app_assoc. simpl.
    rewrite <- ?app_assoc. reflexivity.
  - unfold linkParts, aliasText, httpUrl, allSpace, optional.
    destruct Ha as [Ha1 Ha2]. destruct Hrest as [Hr1 Hr2].
    repeat split; auto.
    exists ([h; t1; t2; p] ++ so), rest.
    repeat split; auto. now apply isHttpScheme_intro.
  - simpl. now rewrite app_nil_r.
  - simpl. rewrite ?app_nil_r, <- ?app_assoc. reflexivity.
Qed.

(** Every link is a word of the pattern. *)
Lemma link_parses a ws0 lb u rb ws :
  linkParts a ws0 lb u rb ws ->
  exists segs, parses mdLinkRegex segs /\
               concat segs = mdLink a ws0 lb u rb ws.
Proof.
  intros (Ha & Hws0 & Hlt & (scheme & rest & -> & Hsch & Hr1 & Hr2) & Hgt & Hws).
  apply isHttpScheme_inv in Hsch
    as (h & t1 & t2 & p & o & -> & Hh & Ht1 & Ht2 & Hp & Ho).
  exists [ js "["; []; a; []; js "]"; js "("; ws0; lb; [];
           [h]; [t1]; [t2]; [p]; o; js ":"; js "/"; js "/"; rest; [];
           rb; ws; js ")" ].
  split.
  - unfold mdLinkRegex, parses.
    repeat apply Forall2_cons; try apply Forall2_nil; simpl;
      try reflexivity;
      try (eexists; split; [reflexivity | first [reflexivity | assumption]]);
      try assumption; try (split; assumption).
    + destruct Hlt as [-> | ->]; [now left | right].
      eexists; split; reflexivity.
    + destruct Hgt as [-> | ->]; [now left | right].
      eexists; split; reflexivity.
  - unfold mdLink. simpl. rewrite ?app_nil_r, <- ?app_assoc. simpl.
    rewrite <- ?app_assoc. reflexivity.
Qed.

(** *** Evaluating the matcher on a link *)

Lemma exec_One p r c s :
  p c = true -> exec (One p :: r) (c :: s) = emit [c] (exec r s).
Proof. intros H. simpl. now rewrite H. Qed.

Lemma exec_Star_run p r seg s segs rest :
  forallb p seg = true -> stops p s -> exec r s = Some (segs, rest) ->
  exec (Star p :: r) (seg ++ s) = Some (seg :: segs, rest).
Proof.
  intros Hall Hs Hk. simpl.
  now rewrite (star_run p (exec r) seg s _ Hall Hs Hk).
Qed.

Lemma exec_Plus_run p r seg s segs rest :
  seg <> [] -> forallb p seg = true -> stops p s ->
  exec r s = Some (segs, rest) ->
  exec (Plus p :: r) (seg ++ s) = Some (seg :: segs, rest).
Proof.
  intros Hne Hall Hs Hk. destruct seg as [|c seg]; [congruence|].
  simpl in Hall. apply andb_true_iff in Hall as [Hc Hall].
  simpl. rewrite Hc.
  now rewrite (star_run p (exec r) seg s _ Hall Hs Hk).
Qed.

Lemma exec_Plus_back p r seg c segs rest :
  seg <> [] -> forallb p seg = true -> p c = true ->
  exec r [] = None -> exec r [c] = Some (segs, rest) ->
  exec (Plus p :: r) (seg ++ [c]) = Some (seg :: segs, rest).
Proof.
  intros Hne Hall Hc Hend Hk. destruct seg as [|d seg]; [congruence|].
  simpl in Hall. apply andb_true_iff in Hall as [Hd Hall].
  simpl. rewrite Hd.
  now rewrite (star_back p (exec r) seg c _ Hall Hc Hend Hk).
Qed.

Lemma exec_Opt_take p r c s segs rest :
  p c = true -> exec r s = Some (segs, rest) ->
  exec (Opt p :: r) (c :: s) = Some ([c] :: segs, rest).
Proof. intros Hc Hk. simpl. now rewrite Hc, Hk. Qed.

Lemma exec_Opt_skip p r s segs rest :
  stops p s -> exec r s = Some (segs, rest) ->
  exec (Opt p :: r) s = Some ([] :: segs, rest).
Proof.
  intros Hs Hk. destruct s as [|c s]; simpl in *.
  - now rewrite Hk.
  - now rewrite Hs, Hk.
Qed.

Lemma space_not_gt c : isSpace c = true -> chr ">" c = false.
Proof.
  intros H. unfold chr. apply N.eqb_neq. intros ->. discriminate H.
Qed.

Lemma forallb_In (p : charset) seg c :
  forallb p seg = true -> In c seg -> p c = true.
Proof. intros H. now apply forallb_forall. Qed.

Lemma exec_Plus_longest p r seg s segs rest :
  seg <> [] -> forallb p seg = true ->
  exec r s = Some (segs, rest) ->
  (forall t1 t2, s = t1 ++ t2 -> t1 <> [] -> forallb p t1 = true ->
                 exec r t2 = None) ->
  exec (Plus p :: r) (seg ++ s) = Some (seg :: segs, rest).
Proof.
  intros Hne Hall Hk Hfail. destruct seg as [|c seg]; [congruence|].
  simpl in Hall. apply andb_true_iff in Hall as [Hc Hall].
  simpl. rewrite Hc.
  now rewrite (star_longest p (exec r) seg s _ Hall Hk Hfail).
Qed.

(** A run of characters of [p] at the start of a text that stops being in
    [p] after [r] lies within [r]. *)
Lemma prefix_of_run (p : charset) : forall t1 t2 r s2,
  t1 ++ t2 = r ++ s2 -> forallb p t1 = true -> stops p s2 ->
  exists r2, r = t1 ++ r2 /\ t2 = r2 ++ s2.
Proof.
  induction t1 as [|c t1 IH]; intros t2 r s2 E Hall Hs.
  - exists r. auto.
  - simpl in Hall. apply andb_true_iff in Hall as [Hc Hall].
    destruct r as [|d r].
    + simpl in E. subst s2. simpl in Hs. congruence.
    + simpl in E. injection E as <- E.
      destruct (IH t2 r s2 E Hall Hs) as (r2 & -> & ->). now exists r2.
Qed.

Lemma closing_fails_char c t :
  urlChar c = true -> c <> N_of_ascii ")" -> exec closingPattern (c :: t) = None.
Proof.
  intros Hu Hc. unfold urlChar in Hu. apply negb_true_iff in Hu.
  apply orb_false_iff in Hu as [Hs Hg].
  assert (Hp : chr ")" c = false) by now apply N.eqb_neq.
  unfold closingPattern. simpl. now rewrite Hg, Hs, Hp.
Qed.

Lemma closing_fails s : ~ closesLink s -> exec closingPattern s = None.
Proof.
  intros H. destruct (exec closingPattern s) as [[segs rest]|] eqn:E; [|reflexivity].
  exfalso. apply H. apply exec_sound in E as [HP ->]. unfold closingPattern in HP.
  next_term HP s0 H0. subst s0.
  next_term HP g Hg. apply optional_of_opt in Hg.
  next_term HP w Hw.
  next_term HP s3 H3. one_char H3 c3. apply chr_true in H3. subst c3.
  apply parses_nil in HP. subst.
  exists g, w, rest. split; [exact Hg|]. split; [exact Hw|].
  simpl. rewrite <- ?app_assoc. reflexivity.
Qed.

(** On a link, the matcher reads the link as it is written, provided the
    url ends where it is written. *)
Lemma exec_link a ws0 lb scheme rest rb ws post :
  linkParts a ws0 lb (scheme ++ js "://" ++ rest) rb ws ->
  isHttpScheme scheme = true -> rest <> [] -> forallb urlChar rest = true ->
  urlDelimited rb ws post ->
  exec mdLinkRegex
       (mdLink a ws0 lb (scheme ++ js "://" ++ rest) rb ws ++ post)
  = Some (linkSegments a ws0 lb scheme rest rb ws, post).
Proof.
  intros (Ha & Hws0 & Hlt & _ & Hgt & Hws) Hsch Hr1 Hr2 Hpost.
  apply isHttpScheme_inv in Hsch
    as (h & t1 & t2 & p & o & -> & Hh & Ht1 & Ht2 & Hp & Ho).
  destruct Ha as [Ha1 Ha2].
  unfold allSpace in *.
  set (T21 := js ")" ++ post).
  set (T20 := ws ++ T21).
  set (T19 := rb ++ T20).
  set (T17 := rest ++ T19).
  set (T13 := o ++ js "://" ++ T17).
  set (T9 := [h; t1; t2; p] ++ T13).
  set (T7 := lb ++ T9).
  set (T6 := ws0 ++ T7).
  set (T2 := a ++ js "](" ++ T6).
  replace (mdLink a ws0 lb (([h; t1; t2; p] ++ o) ++ js "://" ++ rest) rb ws
           ++ post) with (js "[" ++ T2)
    by (unfold mdLink, T2, T6, T7, T9, T13, T17, T19, T20, T21;
        rewrite <- ?app_assoc; reflexivity).
  unfold linkSegments, mdLinkRegex.
  replace (firstn 4 (([h; t1; t2; p]) ++ o)) with [h; t1; t2; p]
    by reflexivity.
  replace (skipn 4 (([h; t1; t2; p]) ++ o)) with o by reflexivity.
  (* from the closing parenthesis backwards *)
  assert (E21 : exec [One (chr ")")] T21 = Some ([js ")"], post))
    by reflexivity.
  assert (E20 : exec [Star isSpace; One (chr ")")] T20
                = Some ([ws; js ")"], post)).
  { apply exec_Star_run; [assumption | reflexivity | exact E21]. }
  assert (E19 : exec [Opt (chr ">"); Star isSpace; One (chr ")")] T19
                = Some ([rb; ws; js ")"], post)).
  { destruct Hgt as [-> | ->].
    - apply exec_Opt_skip; [|exact E20]. simpl.
      unfold T20. destruct ws as [|c ws']; [reflexivity|].
      simpl in *. apply andb_true_iff in Hws as [Hc _].
      now apply space_not_gt.
    - apply (exec_Opt_take (chr ">")); [reflexivity | exact E20]. }
  assert (E17 : exec [Plus urlChar; Close 2; Opt (chr ">"); Star isSpace;
                      One (chr ")")] T17
                = Some ([rest; []; rb; ws; js ")"], post)).
  { assert (Hdec : rb ++ ws <> [] \/ (rb = [] /\ ws = [])).
    { destruct rb; destruct ws; simpl; auto; left; discriminate. }
    destruct Hdec as [Hne | [Erb Ews]]; [clear Hpost | subst rb ws].
    2: { destruct Hpost as [Hne | (q & post2 & Hq & Hall & Hnp & Hstop & Hncl)];
           [now elim Hne|].
         apply exec_Plus_longest; try assumption.
         - change (exec (Close 2 :: ?r) ?s) with (emit [] (exec r s)).
           now rewrite E19.
         - intros x1 x2 E Hx1 Hrun. fold closingPattern.
           unfold T19, T20, T21 in E. rewrite Hq in E.
           change ([] ++ [] ++ js ")" ++ q ++ post2)
             with ((N_of_ascii ")" :: q) ++ post2) in E.
           symmetry in E.
           destruct (prefix_of_run urlChar x1 x2 _ post2 E Hrun Hstop)
             as (r2 & Hr & ->).
           destruct x1 as [|c x1]; [congruence|].
           simpl in Hr. injection Hr as _ Hr.
           destruct r2 as [|d r2]; [now apply closing_fails|].
           apply closing_fails_char.
           + rewrite Hr in Hall. rewrite forallb_app in Hall.
             apply andb_true_iff in Hall as [_ Hall]. simpl in Hall.
             now apply andb_true_iff in Hall as [Hd _].
           + intros ->. apply Hnp. rewrite Hr. apply in_or_app.
             right. now left. }
    apply exec_Plus_run; try assumption.
    - unfold T19, T20. rewrite app_assoc.
      destruct (rb ++ ws) as [|c l] eqn:E; [congruence|]. simpl.
      destruct Hgt as [-> | ->].
      + simpl in E. subst ws. simpl in Hws.
        apply andb_true_iff in Hws as [Hc _].
        unfold urlChar. now rewrite Hc.
      + injection E as <- _. reflexivity.
    - change (exec (Close 2 :: ?r) ?s) with (emit [] (exec r s)).
      now rewrite E19. }
  assert (E13 : exec [Opt (chri "s" "S"); One (chr ":"); One (chr "/");
                      One (chr "/"); Plus urlChar; Close 2; Opt (chr ">");
                      Star isSpace; One (chr ")")] T13
                = Some ([o; js ":"; js "/"; js "/"; rest; []; rb; ws; js ")"],
                        post)).
  { assert (E14 : exec [One (chr ":"); One (chr "/");
                      One (chr "/"); Plus urlChar; Close 2; Opt (chr ">");
                      Star isSpace; One (chr ")")] (js "://" ++ T17)
                = Some ([js ":"; js "/"; js "/"; rest; []; rb; ws; js ")"],
                        post)).
    { change (js "://" ++ T17) with (58 :: 47 :: 47 :: T17).
      rewrite !exec_One by reflexivity. now rewrite E17. }
    unfold T13. destruct Ho as [-> | (c & -> & Hc)].
    - apply exec_Opt_skip; [reflexivity | exact E14].
    - apply (exec_Opt_take (chri "s" "S")); [exact Hc | exact E14]. }
  assert (E7 : exec (skipn 7 mdLinkRegex) T7
               = Some (lb :: [] :: [h] :: [t1] :: [t2] :: [p] ::
                       [o; js ":"; js "/"; js "/"; rest; []; rb; ws; js ")"],
                       post)).
  { assert (E8 : exec (skipn 8 mdLinkRegex) T9
               = Some ([] :: [h] :: [t1] :: [t2] :: [p] ::
                       [o; js ":"; js "/"; js "/"; rest; []; rb; ws; js ")"],
                       post)).
    { unfold T9. cbn [skipn mdLinkRegex app].
      change (exec (Open 2 :: ?r) ?s) with (emit [] (exec r s)).
      rewrite !exec_One by assumption. now rewrite E13. }
    cbn [skipn mdLinkRegex] in *. unfold T7.
    destruct Hlt as [-> | ->].
    - apply exec_Opt_skip; [|exact E8]. unfold T9. simpl.
      apply chri_true in Hh as [-> | ->]; reflexivity.
    - apply (exec_Opt_take (chr "<")); [reflexivity | exact E8]. }
  assert (E6 : exec (skipn 6 mdLinkRegex) T6
               = Some (ws0 :: lb :: [] :: [h] :: [t1] :: [t2] :: [p] ::
                       [o; js ":"; js "/"; js "/"; rest; []; rb; ws; js ")"],
                       post)).
  { cbn [skipn mdLinkRegex] in *. unfold T6.
    apply exec_Star_run; [assumption | | exact E7].
    unfold T7, T9. destruct Hlt as [-> | ->]; simpl; [|reflexivity].
    apply chri_true in Hh as [-> | ->]; reflexivity. }
  cbn [skipn mdLinkRegex] in E6.
  change (js "[" ++ T2) with (91 :: T2).
  rewrite exec_One by reflexivity.
  change (exec (Open 1 :: ?r) ?s) with (emit [] (exec r s)).
  unfold T2.
  rewrite (exec_Plus_run aliasChar _ a (js "](" ++ T6)
             ([] :: js "]" :: js "(" :: ws0 :: lb :: [] :: [h] ::
              [t1] :: [t2] :: [p] ::
              [o; js ":"; js "/"; js "/"; rest; []; rb; ws; js ")"])
             post); try assumption; try reflexivity.
  change (exec (Close 1 :: ?r) ?s) with (emit [] (exec r s)).
  change (js "](" ++ T6) with (93 :: 40 :: T6).
  rewrite !exec_One by reflexivity. now rewrite E6.
Qed.

End LinkFacts.

(** ** Extraction *)

Module ExtractFacts.
Import Regex RegexFacts SearchFacts LinkFacts.

Lemma trimStart_id s :
  (forall c, In c s -> isSpace c = false) -> trimStart s = s.
Proof.
  destruct s as [|c s]; [reflexivity|]. intros H. simpl.
  now rewrite (H c (or_introl eq_refl)).
Qed.

(** Trimming a text without white space changes nothing. *)
Lemma trim_id s : (forall c, In c s -> isSpace c = false) -> trim s = s.
Proof.
  intros H. unfold trim, trimEnd. rewrite (trimStart_id s H).
  rewrite trimStart_id, rev_involutive; [reflexivity|].
  intros c Hc. apply H. now apply in_rev.
Qed.

Lemma chri_not_space l u c :
  isSpace (N_of_ascii l) = false -> isSpace (N_of_ascii u) = false ->
  chri l u c = true -> isSpace c = false.
Proof. intros Hl Hu H. apply chri_true in H as [-> | ->]; assumption. Qed.

(** The url of a link contains no white space: trimming it changes
    nothing. *)
Lemma httpUrl_trim u : httpUrl u -> trim u = u.
Proof.
  intros (scheme & rest & -> & Hsch & _ & Hrest).
  apply isHttpScheme_inv in Hsch
    as (h & t1 & t2 & p & o & -> & Hh & Ht1 & Ht2 & Hp & Ho).
  apply trim_id. intros c Hc.
  rewrite !in_app_iff in Hc. simpl in Hc.
  destruct Hc as [[Hc | Hc] | [Hc | Hc]].
  - destruct Hc as [<- | [<- | [<- | [<- | []]]]];
      eapply chri_not_space; try eassumption; reflexivity.
  - destruct Ho as [-> | (d & -> & Hd)]; [destruct Hc|].
    destruct Hc as [<- | []].
    eapply chri_not_space; try eassumption; reflexivity.
  - destruct Hc as [<- | [<- | [<- | []]]]; reflexivity.
  - pose proof (forallb_In urlChar rest c Hrest Hc) as Hu.
    unfold urlChar in Hu. apply negb_true_iff in Hu.
    now apply orb_false_iff in Hu as [Hu _].
Qed.

(** The pattern cannot start at a character other than the opening
    bracket. *)
Lemma exec_not_bracket c t :
  c <> N_of_ascii "[" -> exec mdLinkRegex (c :: t) = None.
Proof.
  intros H. unfold mdLinkRegex. simpl.
  replace (chr "[" c) with false; [reflexivity|].
  symmetry. now apply N.eqb_neq.
Qed.

Lemma concat_linkSegments a ws0 lb scheme rest rb ws :
  isHttpScheme scheme = true ->
  concat (linkSegments a ws0 lb scheme rest rb ws)
  = mdLink a ws0 lb (scheme ++ js "://" ++ rest) rb ws.
Proof.
  intros Hsch. apply isHttpScheme_inv in Hsch
    as (h & t1 & t2 & p & o & -> & _).
  unfold linkSegments, mdLink. simpl.
  rewrite ?app_nil_r, <- ?app_assoc. simpl. rewrite <- ?app_assoc.
  reflexivity.
Qed.

Lemma capture_linkSegments a ws0 lb scheme rest rb ws :
  isHttpScheme scheme = true ->
  capture 1 false mdLinkRegex (linkSegments a ws0 lb scheme rest rb ws) = a /\
  capture 2 false mdLinkRegex (linkSegments a ws0 lb scheme rest rb ws)
  = scheme ++ js "://" ++ rest.
Proof.
  intros Hsch. apply isHttpScheme_inv in Hsch
    as (h & t1 & t2 & p & o & -> & _).
  unfold linkSegments, mdLinkRegex. simpl.
  rewrite ?app_nil_r, <- ?app_assoc. split; reflexivity.
Qed.

End ExtractFacts.

(** *** The first link of a text *)

Module FirstLink.
Import Regex RegexFacts SearchFacts LinkFacts.

(** Positions at which the pattern does not match are passed over. *)
Lemma search_skip_pos r pre : forall i s,
  (forall k, (k < length pre)%nat -> exec r (skipn k (pre ++ s)) = None) ->
  search r i (pre ++ s) = search r (i + length pre) s.
Proof.
  induction pre as [|c pre IH]; intros i s H.
  - simpl. f_equal. lia.
  - pose proof (H O ltac:(simpl; lia)) as H0. cbn [app skipn] in H0.
    cbn [app search]. rewrite H0, IH.
    + f_equal. simpl. lia.
    + intros k Hk. apply (H (S k)). simpl. lia.
Qed.

(** Before the first link the pattern matches nowhere. *)
Lemma firstLinkAfter_exec pre s :
  firstLinkAfter pre (pre ++ s) ->
  forall k, (k < length pre)%nat ->
            exec mdLinkRegex (skipn k (pre ++ s)) = None.
Proof.
  intros Hfirst k Hk.
  destruct (exec mdLinkRegex (skipn k (pre ++ s))) as [[segs rest]|] eqn:E;
    [|reflexivity].
  exfalso. apply exec_sound in E as [HP Hs].
  apply parses_link in HP as (a & ws0 & lb & u & rb & ws & Hcat & HL & _).
  assert (Ht : pre ++ s
               = firstn k (pre ++ s) ++ mdLink a ws0 lb u rb ws ++ rest).
  { rewrite <- Hcat, <- Hs. symmetry. apply firstn_skipn. }
  pose proof (Hfirst _ _ _ _ _ _ _ _ HL Ht) as Hle.
  pose proof (firstn_le_length k (pre ++ s)). lia.
Qed.

(** A link is the first of the text when no opening bracket stands before
    it. *)
Lemma firstLinkAfter_no_bracket pre s :
  (forall c, In c pre -> c <> N_of_ascii "[") ->
  firstLinkAfter pre (pre ++ s).
Proof.
  intros H pre' a ws0 lb u rb ws post' _ E.
  destruct (Nat.le_gt_cases (length pre) (length pre')) as [|Hlt];
    [assumption|].
  exfalso. apply (H (nth (length pre') pre 0)).
  - now apply nth_In.
  - rewrite <- (app_nth1 pre s 0 Hlt), E. unfold mdLink. simpl.
    apply nth_middle.
Qed.

(** A text on which the end of the pattern fails does not go on as the end
    of a link. *)
Lemma closesLink_exec s : exec closingPattern s = None -> ~ closesLink s.
Proof.
  intros E (g & w & t & Hg & Hw & ->).
  assert (HP : parses closingPattern [[]; g; w; js ")"]).
  { unfold closingPattern, parses.
    repeat apply Forall2_cons; try apply Forall2_nil; simpl.
    - reflexivity.
    - destruct Hg as [-> | ->]; [now left | right].
      eexists; split; reflexivity.
    - exact Hw.
    - eexists; split; reflexivity. }
  apply (exec_complete _ _ t) in HP. apply HP.
  simpl. rewrite ?app_nil_r, <- ?app_assoc. exact E.
Qed.

End FirstLink.

(** C5, as the code has it.  A text that contains a Markdown link
    [[alias](url)] (alias a non-empty run of characters other than the
    closing bracket, url an http or https url in any letter case, possibly
    between angle brackets and surrounded by white space) is matched: the
    extracted [fullMatch] is a piece of the text that is itself such a
    link, [alias] is the trimmed alias of that piece and [url] its trimmed
    url.  The piece is the link itself, with its alias trimmed and its url,
    when no link of the text starts before it and its url ends where it is
    written: it is closed by [>] or white space, or the characters after
    the link up to the next white space, [>] or end of the text hold no
    closing parenthesis and do not lead to one. *)
Theorem findMarkdownLink_extracts :
  forall pre a ws0 lb u rb ws post,
    linkParts a ws0 lb u rb ws ->
    let text := pre ++ mdLink a ws0 lb u rb ws ++ post in
    (exists l pre' post' a' ws0' lb' u' rb' ws',
        findMarkdownLink text = Some l /\
        text = pre' ++ fullMatch l ++ post' /\
        fullMatch l = mdLink a' ws0' lb' u' rb' ws' /\
        linkParts a' ws0' lb' u' rb' ws' /\
        alias l = trim a' /\ url l = trim u' /\ trim u' = u') /\
    (firstLinkAfter pre text -> urlDelimited rb ws post ->
     findMarkdownLink text =
       Some {| fullMatch := mdLink a ws0 lb u rb ws;
               alias := trim a;
               url := trim u |}).
Proof.
  intros pre a ws0 lb u rb ws post HP text. split.
  - destruct (LinkFacts.link_parses _ _ _ _ _ _ HP) as (segs & Hsegs & Hcat).
    pose proof (SearchFacts.search_complete _ pre 0 _ post Hsegs) as Hfound.
    rewrite Hcat in Hfound. fold text in Hfound.
    unfold findMarkdownLink, Regex.match_.
    destruct (Regex.search mdLinkRegex 0 text) as [m|] eqn:E; [|congruence].
    apply SearchFacts.search_sound in E
      as (pre' & segs' & post' & Htext & Hsegs' & _ & Hm & Hg).
    apply LinkFacts.parses_link in Hsegs'
      as (a' & ws0' & lb' & u' & rb' & ws' & Hcat' & HP' & Hg1 & Hg2).
    exists {| fullMatch := Regex.matched m;
              alias := trim (Regex.group m 1);
              url := trim (Regex.group m 2) |}.
    exists pre', post', a', ws0', lb', u', rb', ws'. simpl.
    rewrite Hm, !Hg, Hg1, Hg2, <- Hcat'.
    split; [reflexivity|]. split; [exact Htext|]. split; [reflexivity|].
    split; [exact HP'|]. split; [reflexivity|]. split; [reflexivity|].
    apply ExtractFacts.httpUrl_trim. apply HP'.
  - intros Hfirst Hdelim.
    pose proof HP as (_ & _ & _ & (scheme & rest & -> & Hsch & Hr1 & Hr2) & _).
    unfold findMarkdownLink, Regex.match_, text.
    rewrite FirstLink.search_skip_pos
      by (apply FirstLink.firstLinkAfter_exec; exact Hfirst).
    pose proof (LinkFacts.exec_link a ws0 lb scheme rest rb ws post
                  HP Hsch Hr1 Hr2 Hdelim) as E.
    rewrite (SearchFacts.search_found _ _ _ _ _ E).
    cbn [Regex.matched Regex.group].
    rewrite (ExtractFacts.concat_linkSegments a ws0 lb scheme rest rb ws Hsch).
    destruct (ExtractFacts.capture_linkSegments a ws0 lb scheme rest rb ws
                Hsch) as [-> ->].
    reflexivity.
Qed.

(** The link [[ My Title ](https://x.test)] in a line that goes on. *)
Lemma findMarkdownLink_extracts_witness :
  (linkParts (js " My Title ") [] [] (js "https://x.test") [] [] /\
   firstLinkAfter (js "see ")
     (js "see " ++ mdLink (js " My Title ") [] [] (js "https://x.test") [] []
      ++ js " here") /\
   urlDelimited [] [] (js " here")) /\
  findMarkdownLink (js "see [ My Title ](https://x.test) here") =
    Some {| fullMatch := js "[ My Title ](https://x.test)";
            alias := js "My Title";
            url := js "https://x.test" |}.
Proof.
  assert (HP : linkParts (js " My Title ") [] [] (js "https://x.test") [] []).
  { repeat split; try reflexivity; try discriminate.
    - now left.
    - exists (js "https"), (js "x.test").
      repeat split; try reflexivity; discriminate.
    - now left. }
  assert (Hfirst : firstLinkAfter (js "see ")
            (js "see " ++ mdLink (js " My Title ") [] []
                            (js "https://x.test") [] [] ++ js " here")).
  { apply FirstLink.firstLinkAfter_no_bracket. intros c Hc. simpl in Hc.
    destruct Hc as [<- | [<- | [<- | [<- | []]]]]; discriminate. }
  assert (Hdelim : urlDelimited [] [] (js " here")).
  { right. exists [], (js " here").
    split; [reflexivity|]. split; [reflexivity|]. split; [intros []|].
    split; [reflexivity|]. apply FirstLink.closesLink_exec. reflexivity. }
  split; [auto|].
  destruct (findMarkdownLink_extracts (js "see ") _ _ _ _ _ _ (js " here") HP)
    as [_ H].
  exact (H Hfirst Hdelim).
Defined.

(** C5 as stated does not hold.  In [(see [Ex](https://x.test)) here] the
    url of the extracted link runs over the parenthesis that follows the
    link; and in [[x [a](http://y.com)], where the url is closed, the
    extracted link starts at the first bracket. *)
Lemma findMarkdownLink_exact_fails :
  ~ (forall pre a lb u rb ws post,
        linkParts a [] lb u rb ws ->
        findMarkdownLink (pre ++ mdLink a [] lb u rb ws ++ post) =
          Some {| fullMatch := mdLink a [] lb u rb ws;
                  alias := trim a;
                  url := trim u |}) /\
  ~ (forall pre a lb u rb ws post,
        linkParts a [] lb u rb ws ->
        urlDelimited rb ws post ->
        findMarkdownLink (pre ++ mdLink a [] lb u rb ws ++ post) =
          Some {| fullMatch := mdLink a [] lb u rb ws;
                  alias := trim a;
                  url := trim u |}).
Proof.
  split; intros H.
  - assert (HP : linkParts (js "Ex") [] [] (js "https://x.test") [] []).
    { repeat split; try reflexivity; try discriminate.
      - now left.
      - exists (js "https"), (js "x.test").
        repeat split; try reflexivity; discriminate.
      - now left. }
    specialize (H (js "(see ") _ _ _ _ _ (js ") here") HP).
    vm_compute in H. discriminate H.
  - assert (HP : linkParts (js "a") [] [] (js "http://y.com") [] []).
    { repeat split; try reflexivity; try discriminate.
      - now left.
      - exists (js "http"), (js "y.com").
        repeat split; try reflexivity; discriminate.
      - now left. }
    assert (Hdelim : urlDelimited [] [] []).
    { right. exists [], [].
      split; [reflexivity|]. split; [reflexivity|]. split; [intros []|].
      split; [exact I|]. apply FirstLink.closesLink_exec. reflexivity. }
    specialize (H (js "[x ") _ _ _ _ _ [] HP Hdelim).
    vm_compute in H. discriminate H.
Qed.

(** ** Replacement *)

Module ReplaceFacts.
Import Regex.

(** A replacement text without dollar sign stands for itself. *)
Lemma getSubstitution_plain m b a repl :
  (forall c, In c repl -> c <> DOLLAR) ->
  getSubstitution m b a repl = repl.
Proof.
  induction repl as [|d tl IH]; intros H; [reflexivity|].
  simpl. replace (d =? DOLLAR) with false.
  - f_equal. apply IH. intros c Hc. apply H. now right.
  - symmetry. apply N.eqb_neq. apply H. now left.
Qed.

Lemma indexOf_unfold pat s :
  indexOf pat s =
  if startsWith pat s then Some O
  else match s with
       | [] => None
       | _ :: s' => option_map S (indexOf pat s')
       end.
Proof. destruct s; reflexivity. Qed.

Lemma startsWith_occurs pat s b a :
  startsWith pat s = false -> s = b ++ pat ++ a ->
  exists c b' s', b = c :: b' /\ s = c :: s' /\ s' = b' ++ pat ++ a.
Proof.
  intros E H. destruct b as [|c b'].
  - simpl in H. rewrite H, startsWith_app in E. discriminate.
  - exists c, b', (b' ++ pat ++ a). now rewrite H.
Qed.

Lemma indexOf_some pat : forall s i,
  indexOf pat s = Some i ->
  firstOccurrence pat s (firstn i s) (skipn (i + length pat) s) /\
  length (firstn i s) = i.
Proof.
  induction s as [|c s IH]; intros i; rewrite indexOf_unfold.
  - destruct (startsWith pat []) eqn:E; [|discriminate].
    intros [= <-]. apply startsWith_prefix in E as [t E].
    symmetry in E. apply app_eq_nil in E as [-> ->].
    split; [|reflexivity]. split; [reflexivity|]. intros; simpl; lia.
  - destruct (startsWith pat (c :: s)) eqn:E.
    + intros [= <-]. apply startsWith_prefix in E as [t E].
      split; [|reflexivity]. split; [|intros; simpl; lia].
      simpl firstn. simpl "+"%nat. rewrite E at 2.
      rewrite skipn_app, skipn_all, Nat.sub_diag. simpl. exact E.
    + destruct (indexOf pat s) as [j|] eqn:Ej; [|discriminate].
      intros [= <-]. destruct (IH j eq_refl) as [[Hs Hmin] Hlen].
      split; [|simpl; now rewrite Hlen]. split.
      * simpl. now rewrite <- Hs.
      * intros b' a' H.
        destruct (startsWith_occurs pat (c :: s) b' a' E H)
          as (d & b'' & s' & -> & [= <- <-] & Hs').
        simpl. apply le_n_S. rewrite Hlen.
        specialize (Hmin b'' a' Hs'). now rewrite Hlen in Hmin.
Qed.

Lemma indexOf_none pat : forall s,
  indexOf pat s = None -> ~ occursIn pat s.
Proof.
  induction s as [|c s IH]; rewrite indexOf_unfold.
  - destruct (startsWith pat []) eqn:E; [discriminate|].
    intros _ (b & a & H).
    destruct (startsWith_occurs pat [] b a E H) as (d & b' & s' & _ & H' & _).
    discriminate.
  - destruct (startsWith pat (c :: s)) eqn:E; [discriminate|].
    destruct (indexOf pat s) as [j|]; [discriminate|].
    intros _ (b & a & H).
    destruct (startsWith_occurs pat (c :: s) b a E H)
      as (d & b' & s' & -> & [= <- <-] & Hs').
    apply (IH eq_refl). now exists b', a.
Qed.

(** [replace] leaves a text without occurrence unchanged. *)
Lemma replace_absent s pat repl :
  ~ occursIn pat s -> replace s pat repl = s.
Proof.
  intros H. unfold replace.
  destruct (indexOf pat s) as [i|] eqn:E; [|reflexivity].
  exfalso. apply H. apply indexOf_some in E as [[E _] _]. eauto.
  now exists (firstn i s), (skipn (i + length pat) s).
Qed.

(** [replace] rewrites the first occurrence into the expansion of the
    replacement template. *)
Lemma replace_present s pat repl :
  occursIn pat s ->
  exists before after,
    firstOccurrence pat s before after /\
    replace s pat repl =
      before ++ getSubstitution pat before after repl ++ after.
Proof.
  intros H. unfold replace.
  destruct (indexOf pat s) as [i|] eqn:E.
  - apply indexOf_some in E as [E _].
    now exists (firstn i s), (skipn (i + length pat) s).
  - now apply indexOf_none in E.
Qed.

Lemma app_same_length (b b' x y : jsstring) :
  length b = length b' -> b ++ x = b' ++ y -> b = b' /\ x = y.
Proof.
  revert b'; induction b as [|c b IH]; intros [|c' b'] Hlen H;
    try discriminate; simpl in *.
  - now split.
  - injection H as -> H. injection Hlen as Hlen.
    destruct (IH b' Hlen H) as [-> ->]. now split.
Qed.

(** The first occurrence is unique. *)
Lemma firstOccurrence_unique pat s b a b' a' :
  firstOccurrence pat s b a -> firstOccurrence pat s b' a' ->
  b = b' /\ a = a'.
Proof.
  intros [H1 M1] [H2 M2].
  pose proof (M1 _ _ H2). pose proof (M2 _ _ H1).
  assert (Hlen : length b = length b') by lia.
  rewrite H1 in H2.
  destruct (app_same_length _ _ _ _ Hlen H2) as [-> H3].
  split; [reflexivity|]. now apply app_inv_head in H3.
Qed.

End ReplaceFacts.

(** C10.  When [fullMatch] does not occur in the document, the replacement
    step changes neither the text nor the cursor, and raises no error. *)
Theorem replaceMarkdownLink_absent :
  forall (w : World) (originalMatch n a : jsstring),
    ~ occursIn originalMatch (value (editor w)) ->
    snd (replaceMarkdownLink originalMatch n a w) = Returned tt /\
    value (editor (fst (replaceMarkdownLink originalMatch n a w)))
      = value (editor w) /\
    cursor (editor (fst (replaceMarkdownLink originalMatch n a w)))
      = cursor (editor w) /\
    notices (fst (replaceMarkdownLink originalMatch n a w)) = notices w /\
    created (fst (replaceMarkdownLink originalMatch n a w)) = created w.
Proof.
  intros w originalMatch n a H.
  unfold replaceMarkdownLink, bind, getEditor, putEditor, setCursor, setValue,
    getValue, getCursor.
  simpl. rewrite (ReplaceFacts.replace_absent _ _ (wikiLink n a) H).
  repeat split; reflexivity.
Qed.

Lemma replaceMarkdownLink_absent_witness :
  ~ occursIn (js "[a](http://x.com)") (js "plain text") /\
  value (editor (fst (replaceMarkdownLink (js "[a](http://x.com)") (js "a")
                        (js "a")
                        {| editor := {| selection := [];
                                        cursor := {| line := 0; ch := 3 |};
                                        value := js "plain text" |};
                           notices := []; created := [] |})))
  = js "plain text".
Proof.
  assert (H : ~ occursIn (js "[a](http://x.com)") (js "plain text")).
  { apply ReplaceFacts.indexOf_none. reflexivity. }
  split; [exact H|].
  apply (replaceMarkdownLink_absent
           {| editor := {| selection := []; cursor := {| line := 0; ch := 3 |};
                           value := js "plain text" |};
              notices := []; created := [] |}
           (js "[a](http://x.com)") (js "a") (js "a") H).
Defined.

(** The replacement step when the wiki link contains no dollar sign: the
    first occurrence of [fullMatch] becomes the wiki link, the text around
    it and the cursor are kept. *)
Lemma replaceMarkdownLink_first :
  forall (w : World) (originalMatch n a before after : jsstring),
    firstOccurrence originalMatch (value (editor w)) before after ->
    (forall c, In c (wikiLink n a) -> c <> Regex.DOLLAR) ->
    snd (replaceMarkdownLink originalMatch n a w) = Returned tt /\
    value (editor (fst (replaceMarkdownLink originalMatch n a w)))
      = before ++ wikiLink n a ++ after /\
    cursor (editor (fst (replaceMarkdownLink originalMatch n a w)))
      = cursor (editor w).
Proof.
  intros w originalMatch n a before after Hfirst Hplain.
  unfold replaceMarkdownLink, bind, getEditor, putEditor, setCursor, setValue,
    getValue, getCursor.
  simpl.
  destruct (ReplaceFacts.replace_present (value (editor w)) originalMatch
              (wikiLink n a)) as (b & a' & Hf & ->).
  { destruct Hfirst as [-> _]. now exists before, after. }
  destruct (ReplaceFacts.firstOccurrence_unique _ _ _ _ _ _ Hf Hfirst)
    as [-> ->].
  rewrite ReplaceFacts.getSubstitution_plain by assumption.
  repeat split; reflexivity.
Qed.

(** C4 on the code: the alias [Win $$ now] is written into the document
    as [Win $ now]. *)
Theorem replaceMarkdownLink_dollar :
  snd (callback_link (Example.world "" "[Win $$ now](https://z.test)"))
    = Returned {| fullMatch := js "[Win $$ now](https://z.test)";
                  alias := js "Win $$ now"; url := js "https://z.test" |} /\
  value (editor (fst (callback Example.app Example.settings (js "notes")
                        (Example.world "" "[Win $$ now](https://z.test)"))))
    = js "[[Win -- now|Win $ now]]" /\
  wikiLink (js "Win -- now") (js "Win $$ now") = js "[[Win -- now|Win $$ now]]".
Proof. repeat split; reflexivity. Qed.

(** ** Names *)

Module NameFacts.
Import Regex.

Lemma unsafeChar_set c : unsafeChar c = existsb (N.eqb c) unsafeSet.
Proof. reflexivity. Qed.

Lemma replaceAll_class p d : forall s before,
  d <> DOLLAR ->
  replaceAll_from [One p] [d] before O s
  = map (fun c => if p c then d else c) s.
Proof.
  induction s as [|c s IH]; intros before Hd; [reflexivity|].
  cbn [replaceAll_from exec map]. destruct (p c); cbn [emit concat app].
  - cbn [getSubstitution]. replace (d =? DOLLAR) with false
      by (symmetry; now apply N.eqb_neq).
    cbn [app length]. f_equal. now apply IH.
  - f_equal. now apply IH.
Qed.

Lemma sanitizeName_map s : sanitizeName s = map sanitizeChar s.
Proof.
  unfold sanitizeName, replaceAll.
  change (js "-") with [DASH].
  rewrite replaceAll_class by discriminate.
  apply map_ext. intros c. unfold sanitizeChar.
  now rewrite unsafeChar_set.
Qed.

Lemma sanitizeChar_idem c : sanitizeChar (sanitizeChar c) = sanitizeChar c.
Proof.
  unfold sanitizeChar. destruct (existsb (N.eqb c) unsafeSet) eqn:E.
  - reflexivity.
  - now rewrite E.
Qed.

End NameFacts.

(** C9.  Sanitization replaces each of the characters
    [/ \ # % & { } | < > * ? $ ! ' : @] and the double quote with [-],
    keeps every other character, and is idempotent. *)
Theorem sanitizeName_idempotent :
  forall s : jsstring,
    sanitizeName s
      = map (fun c => if existsb (N.eqb c) unsafeSet then DASH else c) s /\
    sanitizeName (sanitizeName s) = sanitizeName s.
Proof.
  intros s. split.
  - apply NameFacts.sanitizeName_map.
  - rewrite !NameFacts.sanitizeName_map, map_map.
    apply map_ext. intros c. apply NameFacts.sanitizeChar_idem.
Qed.

(** C7.  The name of a new note: the sanitized alias when the url is empty,
    whatever the strategy; with a url, under [domain-date] the host name of
    the url, a dash and the current date in the format [YYYY-MM-DD], or the
    sanitized alias when the url cannot be parsed; under [title] the
    sanitized alias. *)
Theorem generateName_priority :
  forall (app : App) (settings : PagurlSettings) (link : ExtractedLink),
    (url link = [] ->
     generateName app settings link = sanitizeName (alias link)) /\
    (url link <> [] -> nameStrategy settings = domain_date ->
     forall host, urlHostname app (url link) = Some host ->
       generateName app settings link
       = host ++ js "-" ++ momentFormat app (js "YYYY-MM-DD")) /\
    (nameStrategy settings = domain_date ->
     urlHostname app (url link) = None ->
     generateName app settings link = sanitizeName (alias link)) /\
    (nameStrategy settings = title ->
     generateName app settings link = sanitizeName (alias link)).
Proof.
  intros app settings link. unfold generateName.
  repeat split.
  - intros ->. reflexivity.
  - intros Hu Hs host Hh. destruct (url link) as [|c u] eqn:E; [congruence|].
    simpl. now rewrite Hs, Hh.
  - intros Hs Hh. destruct (truthy (url link)); simpl; [|reflexivity].
    now rewrite Hs, Hh.
  - intros Hs. destruct (truthy (url link)); simpl; [|reflexivity].
    now rewrite Hs.
Qed.

(** In the example vault, with the date 2026-11-02. *)
Lemma generateName_priority_witness :
  generateName Example.app
    {| template := []; vaultWideNoDuplicate := false;
       nameStrategy := domain_date; folders := [] |}
    {| fullMatch := js "[a:b](https://example.com/x)";
       alias := js "a:b"; url := js "https://example.com/x" |}
  = js "example.com-2026-11-02" /\
  generateName Example.app
    {| template := []; vaultWideNoDuplicate := false;
       nameStrategy := domain_date; folders := [] |}
    {| fullMatch := js "[a:b](http://[)";
       alias := js "a:b"; url := js "http://[" |}
  = js "a-b" /\
  generateName Example.app
    {| template := []; vaultWideNoDuplicate := false;
       nameStrategy := domain_date; folders := [] |}
    {| fullMatch := js "a:b"; alias := js "a:b"; url := [] |}
  = js "a-b" /\
  generateName Example.app Example.settings
    {| fullMatch := js "[a:b](https://example.com/x)";
       alias := js "a:b"; url := js "https://example.com/x" |}
  = js "a-b".
Proof.
  set (dd := {| template := []; vaultWideNoDuplicate := false;
                nameStrategy := domain_date; folders := [] |}).
  split; [|split; [|split]].
  - destruct (generateName_priority Example.app dd
                {| fullMatch := js "[a:b](https://example.com/x)";
                   alias := js "a:b"; url := js "https://example.com/x" |})
      as (_ & H & _).
    apply (H ltac:(discriminate) eq_refl (js "example.com") eq_refl).
  - destruct (generateName_priority Example.app dd
                {| fullMatch := js "[a:b](http://[)";
                   alias := js "a:b"; url := js "http://[" |})
      as (_ & _ & H & _).
    apply (H eq_refl eq_refl).
  - destruct (generateName_priority Example.app dd
                {| fullMatch := js "a:b"; alias := js "a:b"; url := [] |})
      as (H & _).
    apply (H eq_refl).
  - destruct (generateName_priority Example.app Example.settings
                {| fullMatch := js "[a:b](https://example.com/x)";
                   alias := js "a:b"; url := js "https://example.com/x" |})
      as (_ & _ & _ & H).
    apply (H eq_refl).
Defined.

(** ** Content *)

Module ContentFacts.
Import Regex.

Lemma exec_literal (l : list ascii) : forall s,
  exec (map (fun a => One (chr a)) l) s =
  if startsWith (map N_of_ascii l) s
  then Some (map (fun a => [N_of_ascii a]) l, skipn (length l) s)
  else None.
Proof.
  induction l as [|a l IH]; intros s; [reflexivity|].
  cbn [map exec startsWith]. destruct s as [|c s]; [reflexivity|].
  unfold chr at 1. unfold cu_eqb. rewrite (N.eqb_sym (N_of_ascii a) c).
  destruct (c =? N_of_ascii a) eqn:E; [|reflexivity].
  rewrite IH. cbn [andb length skipn].
  apply N.eqb_eq in E. subst c.
  destruct (startsWith (map N_of_ascii l) s); reflexivity.
Qed.

Lemma concat_singletons (l : list ascii) :
  concat (map (fun a => [N_of_ascii a]) l) = map N_of_ascii l.
Proof. induction l as [|a l IH]; simpl; congruence. Qed.

(** With a value free of dollar signs, the global replacement of a literal
    placeholder is the literal substitution. *)
Lemma replaceAll_literal (l : list ascii) (v : jsstring) :
  l <> [] -> (forall c, In c v -> c <> DOLLAR) ->
  forall s before skip,
    replaceAll_from (map (fun a => One (chr a)) l) v before skip s
    = substitute_from (map N_of_ascii l) v skip s.
Proof.
  intros Hl Hv. induction s as [|c s IH]; intros before skip.
  - cbn [replaceAll_from substitute_from]. rewrite exec_literal.
    destruct l as [|a l]; [congruence|]. destruct skip; reflexivity.
  - destruct skip as [|k]; cbn [replaceAll_from substitute_from];
      [|apply IH].
    rewrite exec_literal.
    destruct (startsWith (map N_of_ascii l) (c :: s)) eqn:E.
    + rewrite concat_singletons.
      rewrite ReplaceFacts.getSubstitution_plain by assumption.
      destruct l as [|a l]; [congruence|].
      cbn [map length Nat.sub]. rewrite Nat.sub_0_r. f_equal. apply IH.
    + f_equal. apply IH.
Qed.

Lemma replaceAll_placeholder s (pat : String.string) v :
  pat <> String.EmptyString -> (forall c, In c v -> c <> DOLLAR) ->
  replaceAll s (literal pat) v = substituteAll s pat v.
Proof.
  intros Hp Hv. unfold replaceAll, literal, substituteAll, js.
  apply replaceAll_literal; [|exact Hv].
  destruct pat; [congruence | discriminate].
Qed.

End ContentFacts.

(** The content of a new note when neither alias nor url contains a dollar
    sign: the front-matter block, with the url line exactly when the url is
    not empty, and then the template in which the placeholder of the alias,
    and after it the placeholder of the url, are substituted. *)
Lemma generateContent_plain :
  forall (settings : PagurlSettings) (link : ExtractedLink),
    (forall c, In c (alias link) -> c <> Regex.DOLLAR) ->
    (forall c, In c (url link) -> c <> Regex.DOLLAR) ->
    generateContent settings link =
    frontMatterBlock link ++
    substituteAll (substituteAll (template settings) "{{alias}}" (alias link))
                  "{{url}}" (url link).
Proof.
  intros settings link Ha Hu. unfold generateContent, frontMatterBlock.
  rewrite !ContentFacts.replaceAll_placeholder by (assumption || discriminate).
  destruct (url link); simpl; rewrite <- ?app_assoc; reflexivity.
Qed.

(** The example of the specification. *)
Lemma generateContent_example :
  generateContent
    {| template := js "{{alias}}: {{url}}"; vaultWideNoDuplicate := false;
       nameStrategy := title; folders := [] |}
    {| fullMatch := js "[Example](https://x.test)";
       alias := js "Example"; url := js "https://x.test" |}
  = js "---" ++ [LF] ++
    js "url: " ++ [QUOTE] ++ js "https://x.test" ++ [QUOTE] ++ [LF] ++
    js "aliases:" ++ [LF] ++ js "  - Example" ++ [LF] ++
    js "---" ++ [LF] ++
    js "Example: https://x.test".
Proof. reflexivity. Qed.

(** C8 on the code: with the template [{{alias}}: {{url}}] the alias
    [Win $$ now] enters the body of the note as [Win $ now]. *)
Theorem generateContent_dollar :
  generateContent Example.settings
    {| fullMatch := js "[Win $$ now](https://z.test)";
       alias := js "Win $$ now"; url := js "https://z.test" |}
  = js "---" ++ [LF] ++
    js "url: " ++ [QUOTE] ++ js "https://z.test" ++ [QUOTE] ++ [LF] ++
    js "aliases:" ++ [LF] ++ js "  - Win $$ now" ++ [LF] ++
    js "---" ++ [LF] ++
    js "Win $ now: https://z.test".
Proof. reflexivity. Qed.

(** ** Duplicate lookup *)

Module LookupFacts.

Lemma urlMatches_iff u f :
  urlMatches u f = true <-> frontUrl f = Some (FString u).
Proof.
  unfold urlMatches, frontUrl. destruct (frontmatter f) as [fm|].
  - destruct (fm_url fm) as [[s|]|].
    + rewrite jseqb_eq. split; [now intros -> | now intros [= ->]].
    + split; discriminate.
    + split; discriminate.
  - split; discriminate.
Qed.

Lemma inScope_iff settings dir f :
  inScope settings dir f = true <-> considered settings dir f.
Proof.
  unfold inScope, considered. rewrite orb_true_iff.
  destruct (parentPath f) as [p|].
  - rewrite jseqb_eq. split; (intros [H|H]; [now left | right]); congruence.
  - split; (intros [H|H]; [now left | discriminate]).
Qed.

Lemma findExistingFile_some app settings u dir m :
  findExistingFile app settings u dir = Some m ->
  exists f, In f (getMarkdownFiles app) /\ considered settings dir f /\
            frontUrl f = Some (FString u) /\
            name m = basename f /\ folder m = parentPath f.
Proof.
  unfold findExistingFile.
  destruct (find _ _) as [f|] eqn:E; [|discriminate].
  intros [= <-]. apply find_some in E as [Hin Hu].
  apply filter_In in Hin as [Hin Hs].
  exists f. rewrite <- inScope_iff, <- urlMatches_iff. auto.
Qed.

Lemma findExistingFile_none app settings u dir :
  findExistingFile app settings u dir = None <->
  forall f, In f (getMarkdownFiles app) -> considered settings dir f ->
            frontUrl f <> Some (FString u).
Proof.
  unfold findExistingFile.
  destruct (find _ _) as [f|] eqn:E.
  - split; [discriminate|]. intros H. exfalso.
    apply find_some in E as [Hin Hu]. apply filter_In in Hin as [Hin Hs].
    apply (H f Hin); [now apply inScope_iff | now apply urlMatches_iff].
  - split; [|reflexivity]. intros _ f Hin Hc Hu.
    pose proof (find_none _ _ E f) as Hn.
    rewrite (proj2 (urlMatches_iff u f) Hu) in Hn.
    assert (true = false); [|discriminate]. apply Hn.
    apply filter_In. split; [exact Hin | now apply inScope_iff].
Qed.

End LookupFacts.

(** ** The command *)

Module CallbackFacts.

Lemma callback_folder_world app dir w : fst (callback_folder app dir w) = w.
Proof.
  unfold callback_folder. destruct (jseqb dir (js "current")); [|reflexivity].
  destruct (getActiveFile app); reflexivity.
Qed.

Lemma callback_link_world w : fst (callback_link w) = w.
Proof.
  unfold callback_link, bind, getEditor.
  destruct (extractMarkdownLink (editor w)); [reflexivity|].
  destruct (negb (truthy (trim (getSelection (editor w))))); reflexivity.
Qed.

Lemma callback_steps app settings dir w d link :
  snd (callback_folder app dir w) = Returned d ->
  snd (callback_link w) = Returned link ->
  callback app settings dir w = callback_try app settings link d w.
Proof.
  intros Hd Hl. unfold callback, bind.
  pose proof (callback_folder_world app dir w) as Hw.
  destruct (callback_folder app dir w) as [w1 c1]. simpl in *. subst.
  pose proof (callback_link_world w) as Hw.
  destruct (callback_link w) as [w2 c2]. simpl in *. subst. reflexivity.
Qed.

Lemma callback_try_found app settings link d w m :
  findExistingFile app settings (url link) d = Some m ->
  callback_try app settings link d w =
  if truthy (name m) then
    ({| editor := rewritten (editor w) link (name m);
        notices := notices w ++ [conversionNotice link (Some m) d (name m)];
        created := created w |}, Returned tt)
  else (w, Returned tt).
Proof.
  intros H. unfold callback_try, try_catch, bind. rewrite H.
  unfold ret. destruct (truthy (name m)); reflexivity.
Qed.

Lemma callback_try_created app settings link d w :
  findExistingFile app settings (url link) d = None ->
  vaultCreate app (notePath d (generateName app settings link))
              (generateContent settings link) = None ->
  truthy (generateName app settings link) = true ->
  callback_try app settings link d w =
  ({| editor := rewritten (editor w) link (generateName app settings link);
      notices := notices w ++
                 [conversionNotice link None d (generateName app settings link)];
      created := created w ++
                 [(notePath d (generateName app settings link),
                   generateContent settings link)] |}, Returned tt).
Proof.
  intros H Hc Hn. unfold callback_try, try_catch, bind. rewrite H.
  unfold createFile, generateNote, note_name, note_content.
  fold (notePath d (generateName app settings link)).
  rewrite Hc. unfold ret. rewrite Hn. reflexivity.
Qed.

Lemma callback_try_rejected app settings link d w message :
  findExistingFile app settings (url link) d = None ->
  vaultCreate app (notePath d (generateName app settings link))
              (generateContent settings link) = Some message ->
  callback_try app settings link d w =
  ({| editor := editor w;
      notices := notices w ++ [js "Pagurl error: " ++ message];
      created := created w |}, Returned tt).
Proof.
  intros H Hc. unfold callback_try, try_catch, bind. rewrite H.
  unfold createFile, generateNote, note_name, note_content.
  fold (notePath d (generateName app settings link)).
  rewrite Hc. reflexivity.
Qed.

Lemma truthy_iff s : truthy s = true <-> s <> [].
Proof. destruct s; simpl; split; congruence. Qed.

Lemma sanitizeName_truthy s : s <> [] -> truthy (sanitizeName s) = true.
Proof.
  intros H. rewrite NameFacts.sanitizeName_map.
  destruct s; [congruence | reflexivity].
Qed.

(** Nothing thrown inside the [try] statement leaves the command: a failed
    write is reported by one notice that carries the message. *)
Lemma callback_try_returns app settings link d w :
  snd (callback_try app settings link d w) = Returned tt /\
  (forall message,
     findExistingFile app settings (url link) d = None ->
     vaultCreate app (notePath d (generateName app settings link))
                 (generateContent settings link) = Some message ->
     notices (fst (callback_try app settings link d w))
     = notices w ++ [js "Pagurl error: " ++ message]).
Proof.
  split.
  - destruct (findExistingFile app settings (url link) d) as [m|] eqn:E.
    + rewrite (callback_try_found _ _ _ _ _ _ E).
      destruct (truthy (name m)); reflexivity.
    + destruct (vaultCreate app (notePath d (generateName app settings link))
                  (generateContent settings link)) as [msg|] eqn:Ec.
      * now rewrite (callback_try_rejected _ _ _ _ _ _ E Ec).
      * unfold callback_try, try_catch, bind. rewrite E.
        unfold createFile, generateNote, note_name, note_content.
        fold (notePath d (generateName app settings link)).
        rewrite Ec. unfold ret.
        destruct (truthy (generateName app settings link)); reflexivity.
  - intros message E Ec.
    now rewrite (callback_try_rejected _ _ _ _ _ _ E Ec).
Qed.

End CallbackFacts.

(** C3.  The duplicate lookup considers the notes of the target folder, or
    all notes when [vaultWideNoDuplicate] is set; a note matches exactly when
    the [url] field of its front matter is a string equal to the candidate.
    When a note matches, the command writes no file and uses the name of the
    note; with the toggle off, notes of the same url in other folders do not
    keep the command from writing a new file. *)
Theorem duplicate_lookup :
  forall (app : App) (settings : PagurlSettings),
    (forall u dir m,
        findExistingFile app settings u dir = Some m ->
        exists f, In f (getMarkdownFiles app) /\ considered settings dir f /\
                  frontUrl f = Some (FString u) /\
                  name m = basename f /\ folder m = parentPath f) /\
    (forall u dir,
        findExistingFile app settings u dir = None <->
        forall f, In f (getMarkdownFiles app) -> considered settings dir f ->
                  frontUrl f <> Some (FString u)) /\
    (forall dir w d link m,
        snd (callback_folder app dir w) = Returned d ->
        snd (callback_link w) = Returned link ->
        findExistingFile app settings (url link) d = Some m ->
        snd (callback app settings dir w) = Returned tt /\
        created (fst (callback app settings dir w)) = created w /\
        (name m <> [] ->
         editor (fst (callback app settings dir w))
           = rewritten (editor w) link (name m) /\
         notices (fst (callback app settings dir w))
           = notices w ++ [conversionNotice link (Some m) d (name m)])) /\
    (forall dir w d link,
        snd (callback_folder app dir w) = Returned d ->
        snd (callback_link w) = Returned link ->
        vaultWideNoDuplicate settings = false ->
        (forall f, In f (getMarkdownFiles app) ->
                   frontUrl f = Some (FString (url link)) ->
                   parentPath f <> Some d) ->
        findExistingFile app settings (url link) d = None /\
        (vaultCreate app (notePath d (generateName app settings link))
                     (generateContent settings link) = None ->
         created (fst (callback app settings dir w))
         = created w ++ [(notePath d (generateName app settings link),
                          generateContent settings link)])).
Proof.
  intros app settings. split; [|split; [|split]].
  - intros u dir m. apply LookupFacts.findExistingFile_some.
  - intros u dir. apply LookupFacts.findExistingFile_none.
  - intros dir w d link m Hd Hl Hm.
    rewrite (CallbackFacts.callback_steps _ settings _ _ _ _ Hd Hl).
    rewrite (CallbackFacts.callback_try_found _ _ _ _ w _ Hm).
    destruct (truthy (name m)) eqn:Hn.
    + simpl. split; [reflexivity|]. split; [reflexivity|].
      intros _. split; reflexivity.
    + simpl. split; [reflexivity|]. split; [reflexivity|].
      intros Hne. apply CallbackFacts.truthy_iff in Hne. congruence.
  - intros dir w d link Hd Hl Hoff Hother.
    assert (Hnone : findExistingFile app settings (url link) d = None).
    { apply LookupFacts.findExistingFile_none. intros f Hin [Hc|Hc] Hu.
      - congruence.
      - exact (Hother f Hin Hu Hc). }
    split; [exact Hnone|]. intros Hc.
    rewrite (CallbackFacts.callback_steps _ settings _ _ _ _ Hd Hl).
    unfold callback_try, try_catch, bind. rewrite Hnone.
    unfold createFile, generateNote, note_name, note_content.
    fold (notePath d (generateName app settings link)).
    rewrite Hc. unfold ret.
    destruct (truthy (generateName app settings link)); reflexivity.
Qed.

(** In the example vault: the link to [https://x.test] converted in the
    folder [notes] uses the note [old]; converted in the folder [archive] it
    writes a new note in spite of [notes/old]. *)
Lemma duplicate_lookup_witness :
  (snd (callback_folder Example.app (js "notes")
          (Example.world "" "see [Ex](https://x.test) here"))
     = Returned (js "notes") /\
   snd (callback_link (Example.world "" "see [Ex](https://x.test) here"))
     = Returned {| fullMatch := js "[Ex](https://x.test)";
                   alias := js "Ex"; url := js "https://x.test" |} /\
   vaultWideNoDuplicate Example.settings = false) /\
  created (fst (callback Example.app Example.settings (js "notes")
                  (Example.world "" "see [Ex](https://x.test) here"))) = [] /\
  value (editor (fst (callback Example.app Example.settings (js "notes")
                        (Example.world "" "see [Ex](https://x.test) here"))))
    = js "see [[old|Ex]] here" /\
  map fst (created (fst (callback Example.app Example.settings (js "archive")
                           (Example.world "" "see [Ex](https://x.test) here"))))
    = [js "archive/Ex.md"].
Proof.
  pose proof (duplicate_lookup Example.app Example.settings)
    as (_ & _ & Hreuse & Hnew).
  set (w := Example.world "" "see [Ex](https://x.test) here").
  set (link := {| fullMatch := js "[Ex](https://x.test)";
                  alias := js "Ex"; url := js "https://x.test" |}).
  assert (Hl : snd (callback_link w) = Returned link) by reflexivity.
  split; [repeat split; reflexivity|].
  destruct (Hreuse (js "notes") w (js "notes") link
              {| name := js "old"; folder := Some (js "notes") |}
              eq_refl Hl eq_refl) as (_ & Hc & Hn).
  split; [exact Hc|]. split.
  - destruct Hn as [He _]; [discriminate|]. now rewrite He.
  - destruct (Hnew (js "archive") w (js "archive") link eq_refl Hl eq_refl)
      as [_ Hcr].
    + intros f Hin Hu. simpl in Hin.
      destruct Hin as [<- | [<- | [<- | []]]]; try discriminate Hu.
      discriminate.
    + rewrite Hcr; reflexivity.
Defined.

(** C1, as the code has it.  For a plain-text selection the lookup is made
    with the empty url.  When no considered note has the empty string as its
    front-matter url, no note is returned, and the command asks for a new
    file named by the sanitized selection: the file is written, and the
    selection replaced, when the vault accepts it; otherwise the error is
    reported and nothing changes. *)
Theorem plain_text_creates :
  forall (app : App) (settings : PagurlSettings) (dir d : jsstring)
         (w : World),
    snd (callback_folder app dir w) = Returned d ->
    extractMarkdownLink (editor w) = None ->
    trim (selection (editor w)) <> [] ->
    (forall f, In f (getMarkdownFiles app) -> considered settings d f ->
               frontUrl f <> Some (FString [])) ->
    let sel := trim (selection (editor w)) in
    let link := {| fullMatch := sel; alias := sel; url := [] |} in
    let p := notePath d (sanitizeName sel) in
    let c := generateContent settings link in
    snd (callback_link w) = Returned link /\
    findExistingFile app settings (url link) d = None /\
    (vaultCreate app p c = None ->
     callback app settings dir w =
     ({| editor := rewritten (editor w) link (sanitizeName sel);
         notices := notices w ++
                    [conversionNotice link None d (sanitizeName sel)];
         created := created w ++ [(p, c)] |}, Returned tt)) /\
    (forall message,
        vaultCreate app p c = Some message ->
        callback app settings dir w =
        ({| editor := editor w;
            notices := notices w ++ [js "Pagurl error: " ++ message];
            created := created w |}, Returned tt)).
Proof.
  intros app settings dir d w Hd Hx Hsel Hfm sel link p c.
  assert (Hl : snd (callback_link w) = Returned link).
  { unfold link, sel, callback_link, bind, getEditor, getSelection.
    rewrite Hx.
    destruct (trim (selection (editor w))); [congruence | reflexivity]. }
  assert (Hnone : findExistingFile app settings (url link) d = None)
    by now apply LookupFacts.findExistingFile_none.
  assert (Hname : generateName app settings link = sanitizeName sel)
    by reflexivity.
  split; [exact Hl|]. split; [exact Hnone|]. split.
  - intros Hc.
    rewrite (CallbackFacts.callback_steps _ settings _ _ _ _ Hd Hl).
    rewrite (CallbackFacts.callback_try_created _ _ _ _ w Hnone);
      rewrite ?Hname; auto.
    now apply CallbackFacts.sanitizeName_truthy.
  - intros message Hc.
    rewrite (CallbackFacts.callback_steps _ settings _ _ _ _ Hd Hl).
    now rewrite (CallbackFacts.callback_try_rejected _ _ _ _ w _ Hnone Hc).
Qed.

(** The selection [foo] converted in the folder [archive] of the example
    vault. *)
Lemma plain_text_creates_witness :
  (snd (callback_folder Example.app (js "archive")
          (Example.world " foo " "a foo b foo")) = Returned (js "archive") /\
   extractMarkdownLink (editor (Example.world " foo " "a foo b foo")) = None /\
   trim (selection (editor (Example.world " foo " "a foo b foo"))) <> []) /\
  created (fst (callback Example.app Example.settings (js "archive")
                  (Example.world " foo " "a foo b foo")))
  = [(js "archive/foo.md",
      js "---" ++ [LF] ++ js "aliases:" ++ [LF] ++ js "  - foo" ++ [LF] ++
      js "---" ++ [LF] ++ js "foo: ")].
Proof.
  set (w := Example.world " foo " "a foo b foo").
  assert (Hsel : trim (selection (editor w)) <> []) by discriminate.
  split; [repeat split; try reflexivity; exact Hsel|].
  destruct (plain_text_creates Example.app Example.settings (js "archive")
              (js "archive") w eq_refl eq_refl Hsel) as (_ & _ & Hok & _).
  - intros f Hin [Hc|Hc] Hu; [discriminate Hc|].
    simpl in Hin. destruct Hin as [<- | [<- | [<- | []]]]; discriminate.
  - rewrite Hok; reflexivity.
Defined.

(** C1 as stated does not hold.  In the example vault the note [draft] of
    the folder [notes] has the empty string as front-matter url, and the
    selection [foo] converted there is linked to it.  And where no note has
    such a url, the vault may refuse the write: the selection [other]
    converted in the folder [archive], where [other.md] exists, writes no
    file. *)
Lemma plain_text_always_creates_fails :
  ~ (forall (app : App) (settings : PagurlSettings) (dir d : jsstring)
            (w : World),
        snd (callback_folder app dir w) = Returned d ->
        extractMarkdownLink (editor w) = None ->
        trim (selection (editor w)) <> [] ->
        findExistingFile app settings [] d = None /\
        exists p c, created (fst (callback app settings dir w))
                    = created w ++ [(p, c)]) /\
  ~ (forall (app : App) (settings : PagurlSettings) (dir d : jsstring)
            (w : World),
        snd (callback_folder app dir w) = Returned d ->
        extractMarkdownLink (editor w) = None ->
        trim (selection (editor w)) <> [] ->
        findExistingFile app settings [] d = None ->
        exists p c, created (fst (callback app settings dir w))
                    = created w ++ [(p, c)]).
Proof.
  split; intros H.
  - destruct (H Example.app Example.settings (js "notes") (js "notes")
                (Example.world " foo " "a foo b foo") eq_refl eq_refl)
      as [Hnone _]; discriminate.
  - assert (Hsel : trim (selection (editor
                        (Example.world "other" "an other text"))) <> [])
      by discriminate.
    destruct (H Example.app Example.settings (js "archive") (js "archive")
                (Example.world "other" "an other text")
                eq_refl eq_refl Hsel eq_refl) as (p & c & Hc).
    vm_compute in Hc. discriminate Hc.
Qed.

(** A plain-text selection whose note exists: the lookup finds nothing, the
    vault refuses the write, no file is written and the text is kept. *)
Lemma plain_text_write_refused :
  findExistingFile Example.app Example.settings [] (js "archive") = None /\
  callback Example.app Example.settings (js "archive")
           (Example.world "other" "an other text")
  = ({| editor := editor (Example.world "other" "an other text");
        notices := [js "Pagurl error: File already exists."];
        created := [] |}, Returned tt).
Proof. split; reflexivity. Qed.

(** C6, as the code has it.  Once the folder of the command is known, and
    neither the selection nor the line of the cursor holds a Markdown link:
    a selection that is not blank is taken as the link, trimmed, with the
    empty url; a blank selection makes the command fail with the error
    [NoValidInput]. *)
Theorem fallback_to_selection :
  forall (app : App) (settings : PagurlSettings) (dir d : jsstring)
         (w : World),
    snd (callback_folder app dir w) = Returned d ->
    findMarkdownLink (selection (editor w)) = None ->
    findMarkdownLink (getLine (editor w) (line (cursor (editor w)))) = None ->
    let sel := trim (selection (editor w)) in
    let link := {| fullMatch := sel; alias := sel; url := [] |} in
    (sel <> [] ->
     snd (callback_link w) = Returned link /\
     callback app settings dir w = callback_try app settings link d w) /\
    (sel = [] -> callback app settings dir w = (w, Thrown NoValidInput)).
Proof.
  intros app settings dir d w Hd Hs Hline sel link.
  assert (Hx : extractMarkdownLink (editor w) = None).
  { unfold extractMarkdownLink, or_else, getSelection, getCursor.
    destruct (truthy (selection (editor w))); assumption. }
  split.
  - intros Hne.
    assert (Hl : snd (callback_link w) = Returned link).
    { unfold link, callback_link, bind, getEditor, getSelection. rewrite Hx.
      fold sel. destruct sel; [congruence | reflexivity]. }
    split; [exact Hl|].
    exact (CallbackFacts.callback_steps _ settings _ _ _ _ Hd Hl).
  - intros He. unfold callback, bind.
    pose proof (CallbackFacts.callback_folder_world app dir w) as Hw.
    destruct (callback_folder app dir w) as [w1 c1]. simpl in *. subst.
    unfold callback_link, bind, getEditor, getSelection. rewrite Hx.
    fold sel. rewrite He. reflexivity.
Qed.

(** In the example vault: the selection [foo] in a line without link, and a
    blank selection. *)
Lemma fallback_to_selection_witness :
  (snd (callback_folder Example.app (js "archive")
          (Example.world " foo " "a foo b foo")) = Returned (js "archive") /\
   findMarkdownLink (js " foo ") = None /\
   findMarkdownLink (js "a foo b foo") = None) /\
  snd (callback_link (Example.world " foo " "a foo b foo"))
    = Returned {| fullMatch := js "foo"; alias := js "foo"; url := [] |} /\
  callback Example.app Example.settings (js "archive")
           (Example.world "  " "a foo b foo")
    = (Example.world "  " "a foo b foo", Thrown NoValidInput).
Proof.
  split; [repeat split; reflexivity|]. split.
  - destruct (fallback_to_selection Example.app Example.settings
                (js "archive") (js "archive")
                (Example.world " foo " "a foo b foo")
                eq_refl eq_refl eq_refl) as [H _].
    destruct H as [H _]; [discriminate | exact H].
  - destruct (fallback_to_selection Example.app Example.settings
                (js "archive") (js "archive")
                (Example.world "  " "a foo b foo")
                eq_refl eq_refl eq_refl) as [_ H].
    exact (H eq_refl).
Defined.

(** C6 as stated does not hold for the command [current] when no file is
    active: the command fails with [NoActiveFile] before it looks at the
    selection. *)
Lemma no_valid_input_fails :
  ~ (forall (app : App) (settings : PagurlSettings) (dir : jsstring)
            (w : World),
        findMarkdownLink (selection (editor w)) = None ->
        findMarkdownLink (getLine (editor w) (line (cursor (editor w))))
          = None ->
        let sel := trim (selection (editor w)) in
        (sel <> [] ->
         snd (callback_link w)
           = Returned {| fullMatch := sel; alias := sel; url := [] |}) /\
        (sel = [] ->
         snd (callback app settings dir w) = Thrown NoValidInput)).
Proof.
  intros H.
  destruct (H Example.app Example.settings (js "current")
              (Example.world "" "no link") eq_refl eq_refl) as [_ Hempty].
  specialize (Hempty eq_refl). discriminate Hempty.
Qed.

(** The command [current] without an active file fails before anything
    else, and the error is not caught. *)
Lemma callback_no_active_file :
  forall (app : App) (settings : PagurlSettings) (w : World),
    getActiveFile app = None ->
    callback app settings (js "current") w = (w, Thrown NoActiveFile).
Proof.
  intros app settings w H. unfold callback, bind, callback_folder.
  simpl. rewrite H. reflexivity.
Qed.

(** C2 on the code: the two errors raised before the [try] statement leave
    the command, and no notice is shown. *)
Theorem callback_errors_escape :
  callback Example.app Example.settings (js "notes")
           (Example.world "" "no link")
    = (Example.world "" "no link", Thrown NoValidInput) /\
  callback Example.app Example.settings (js "current")
           (Example.world "foo" "a foo")
    = (Example.world "foo" "a foo", Thrown NoActiveFile).
Proof. split; reflexivity. Qed.

(** * Further properties of the code *)

(** ** More on extraction *)

Module ExtractMore.
Import Regex RegexFacts SearchFacts LinkFacts.

(** The search gives the first position at which the pattern matches. *)
Lemma search_first r : forall s i m,
  search r i s = Some m ->
  exists pre segs post,
    s = pre ++ concat segs ++ post /\ parses r segs /\
    matched m = concat segs /\
    (forall n, group m n = capture n false r segs) /\
    (forall k, (k < length pre)%nat -> exec r (skipn k s) = None).
Proof.
  induction s as [|c s IH]; intros i m; simpl.
  - destruct (exec r []) as [[segs rest]|] eqn:E; [|discriminate].
    intros [= <-]. apply exec_sound in E as [HP Hs].
    exists [], segs, rest. simpl. repeat split; auto. intros k Hk; lia.
  - destruct (exec r (c :: s)) as [[segs rest]|] eqn:E.
    + intros [= <-]. apply exec_sound in E as [HP Hs].
      exists [], segs, rest. simpl. repeat split; auto. intros k Hk; lia.
    + intros H. apply IH in H as (pre & segs & post & -> & HP & Hm & Hg & Hf).
      exists (c :: pre), segs, post. simpl. repeat split; auto.
      intros [|k] Hk; [exact E|]. simpl. apply Hf. lia.
Qed.

Lemma skipn_length_app (pre s : jsstring) : skipn (length pre) (pre ++ s) = s.
Proof. induction pre; simpl; auto. Qed.

End ExtractMore.

(** X1.  Whatever [findMarkdownLink] extracts comes from the text:
    [fullMatch] is a piece of the text and is a Markdown link, [alias] is the
    trimmed text between its brackets and [url] is its url (an http or https
    url, hence not empty and free of white space). *)
Theorem findMarkdownLink_sound :
  forall (text : jsstring) (l : ExtractedLink),
    findMarkdownLink text = Some l ->
    exists pre post a ws0 lb u rb ws,
      text = pre ++ fullMatch l ++ post /\
      fullMatch l = mdLink a ws0 lb u rb ws /\
      linkParts a ws0 lb u rb ws /\
      alias l = trim a /\ url l = u.
Proof.
  intros text l. unfold findMarkdownLink, Regex.match_.
  destruct (Regex.search mdLinkRegex 0 text) as [m|] eqn:E; [|discriminate].
  intros [= <-].
  apply SearchFacts.search_sound in E
    as (pre & segs & post & Htext & Hsegs & _ & Hm & Hg).
  apply LinkFacts.parses_link in Hsegs
    as (a & ws0 & lb & u & rb & ws & Hcat & HP & Hg1 & Hg2).
  exists pre, post, a, ws0, lb, u, rb, ws. simpl.
  rewrite Hm, !Hg, Hg1, Hg2, <- Hcat.
  split; [exact Htext|]. split; [reflexivity|]. split; [exact HP|].
  split; [reflexivity|]. apply ExtractFacts.httpUrl_trim. apply HP.
Qed.

Lemma findMarkdownLink_sound_witness :
  findMarkdownLink (js "see [ a ](http://x.com) and more")
    = Some {| fullMatch := js "[ a ](http://x.com)";
              alias := js "a"; url := js "http://x.com" |} /\
  exists pre post a ws0 lb u rb ws,
    js "see [ a ](http://x.com) and more"
      = pre ++ js "[ a ](http://x.com)" ++ post /\
    js "[ a ](http://x.com)" = mdLink a ws0 lb u rb ws /\
    linkParts a ws0 lb u rb ws /\
    js "a" = trim a /\ js "http://x.com" = u.
Proof.
  split; [reflexivity|].
  exact (findMarkdownLink_sound (js "see [ a ](http://x.com) and more")
           {| fullMatch := js "[ a ](http://x.com)";
              alias := js "a"; url := js "http://x.com" |} eq_refl).
Defined.

(** X2.  [findMarkdownLink] finds nothing exactly when the text contains no
    Markdown link. *)
Theorem findMarkdownLink_none_iff :
  forall text : jsstring,
    findMarkdownLink text = None <-> ~ containsLink text.
Proof.
  intros text. unfold findMarkdownLink, Regex.match_. split.
  - intros H (pre & a & ws0 & lb & u & rb & ws & post & HP & ->).
    destruct (LinkFacts.link_parses _ _ _ _ _ _ HP) as (segs & Hsegs & Hcat).
    pose proof (SearchFacts.search_complete _ pre 0 _ post Hsegs) as Hfound.
    rewrite Hcat in Hfound.
    destruct (Regex.search mdLinkRegex 0 _); [discriminate | congruence].
  - intros H.
    destruct (Regex.search mdLinkRegex 0 text) as [m|] eqn:E; [|reflexivity].
    exfalso. apply H.
    apply SearchFacts.search_sound in E
      as (pre & segs & post & Htext & Hsegs & _).
    apply LinkFacts.parses_link in Hsegs
      as (a & ws0 & lb & u & rb & ws & Hcat & HP & _).
    exists pre, a, ws0, lb, u, rb, ws, post. rewrite <- Hcat. auto.
Qed.

(** X3.  The extracted link is the first of the text: no Markdown link of
    the text starts before [fullMatch]. *)
Theorem findMarkdownLink_leftmost :
  forall (text : jsstring) (l : ExtractedLink),
    findMarkdownLink text = Some l ->
    exists pre post,
      text = pre ++ fullMatch l ++ post /\
      forall pre' a ws0 lb u rb ws post',
        linkParts a ws0 lb u rb ws ->
        text = pre' ++ mdLink a ws0 lb u rb ws ++ post' ->
        (length pre <= length pre')%nat.
Proof.
  intros text l. unfold findMarkdownLink, Regex.match_.
  destruct (Regex.search mdLinkRegex 0 text) as [m|] eqn:E; [|discriminate].
  intros [= <-].
  apply ExtractMore.search_first in E
    as (pre & segs & post & Htext & _ & Hm & _ & Hfirst).
  exists pre, post. simpl. rewrite Hm. split; [exact Htext|].
  intros pre' a ws0 lb u rb ws post' HP Hlink.
  destruct (Nat.le_gt_cases (length pre) (length pre')) as [|Hlt]; [assumption|].
  exfalso. specialize (Hfirst (length pre') Hlt).
  rewrite Hlink, ExtractMore.skipn_length_app in Hfirst.
  destruct (LinkFacts.link_parses _ _ _ _ _ _ HP) as (segs' & Hsegs' & Hcat').
  apply (RegexFacts.exec_complete _ _ post' Hsegs').
  now rewrite Hcat'.
Qed.

Lemma findMarkdownLink_leftmost_witness :
  findMarkdownLink (js "[a](http://x.com) [b](http://y.com)")
    = Some {| fullMatch := js "[a](http://x.com)";
              alias := js "a"; url := js "http://x.com" |} /\
  exists pre post,
    js "[a](http://x.com) [b](http://y.com)"
      = pre ++ js "[a](http://x.com)" ++ post /\
    forall pre' a ws0 lb u rb ws post',
      linkParts a ws0 lb u rb ws ->
      js "[a](http://x.com) [b](http://y.com)"
        = pre' ++ mdLink a ws0 lb u rb ws ++ post' ->
      (length pre <= length pre')%nat.
Proof.
  split; [reflexivity|].
  exact (findMarkdownLink_leftmost (js "[a](http://x.com) [b](http://y.com)")
           {| fullMatch := js "[a](http://x.com)";
              alias := js "a"; url := js "http://x.com" |} eq_refl).
Defined.

(** ** More on replacement *)

Module ReplaceMore.
Import Regex.

(** A replacement text in which no dollar sign starts a pattern stands for
    itself. *)
Lemma getSubstitution_templateFree m b a : forall repl,
  templateFree repl = true -> getSubstitution m b a repl = repl.
Proof.
  induction repl as [|d tl IH]; [reflexivity|].
  intros H. cbn [templateFree] in H. apply andb_true_iff in H as [Hd Htl].
  cbn [getSubstitution]. destruct (d =? DOLLAR) eqn:Ed.
  - destruct tl as [|c tl']; [reflexivity|].
    apply negb_true_iff in Hd.
    apply orb_false_iff in Hd as [Hd H4].
    apply orb_false_iff in Hd as [Hd H3].
    apply orb_false_iff in Hd as [H1 H2].
    rewrite H1, H2, H3, H4. f_equal. now apply IH.
  - f_equal. now apply IH.
Qed.

Lemma dollarFree_templateFree s : dollarFree s -> templateFree s = true.
Proof.
  induction s as [|d tl IH]; intros H; [reflexivity|].
  cbn [templateFree]. replace (d =? DOLLAR) with false.
  - apply IH. intros c Hc. apply H. now right.
  - symmetry. apply N.eqb_neq. apply H. now left.
Qed.

End ReplaceMore.

(** X4.  The replacement step, when [fullMatch] occurs in the document:
    the text before and after its first occurrence is kept, later
    occurrences included, and the first occurrence is replaced by the
    expansion of the wiki link as a replacement template, which is the wiki
    link itself when none of its dollar signs starts a pattern.  The cursor
    is kept, the selection is dropped and nothing is thrown. *)
Theorem replaceMarkdownLink_rewrites :
  forall (w : World) (originalMatch n a : jsstring),
    occursIn originalMatch (value (editor w)) ->
    exists before after,
      firstOccurrence originalMatch (value (editor w)) before after /\
      replaceMarkdownLink originalMatch n a w =
      ({| editor :=
            {| selection := [];
               cursor := cursor (editor w);
               value := before ++
                        Regex.getSubstitution originalMatch before after
                                              (wikiLink n a) ++ after |};
          notices := notices w;
          created := created w |}, Returned tt) /\
      (templateFree (wikiLink n a) = true ->
       Regex.getSubstitution originalMatch before after (wikiLink n a)
       = wikiLink n a).
Proof.
  intros w originalMatch n a Hocc.
  destruct (ReplaceFacts.replace_present (value (editor w)) originalMatch
              (wikiLink n a) Hocc) as (before & after & Hfirst & Hrep).
  exists before, after. split; [exact Hfirst|]. split.
  - unfold replaceMarkdownLink, bind, getEditor, putEditor, setCursor,
      setValue, getValue, getCursor. simpl. now rewrite Hrep.
  - apply ReplaceMore.getSubstitution_templateFree.
Qed.

(** In a document with the same link in two lines, the first one is
    rewritten. *)
Lemma replaceMarkdownLink_rewrites_witness :
  occursIn (js "[a](http://x.com)") (value (editor twoLinks)) /\
  exists before after,
    firstOccurrence (js "[a](http://x.com)") (value (editor twoLinks))
                    before after /\
    replaceMarkdownLink (js "[a](http://x.com)") (js "a") (js "US$ 5")
                        twoLinks =
    ({| editor :=
          {| selection := [];
             cursor := cursor (editor twoLinks);
             value := before ++
                      Regex.getSubstitution (js "[a](http://x.com)") before
                        after (wikiLink (js "a") (js "US$ 5")) ++ after |};
        notices := notices twoLinks;
        created := created twoLinks |}, Returned tt) /\
    (templateFree (wikiLink (js "a") (js "US$ 5")) = true ->
     Regex.getSubstitution (js "[a](http://x.com)") before after
                           (wikiLink (js "a") (js "US$ 5"))
     = wikiLink (js "a") (js "US$ 5")).
Proof.
  assert (H : occursIn (js "[a](http://x.com)") (value (editor twoLinks))).
  { exists (js "p "), (js " q" ++ [LF] ++ js "[a](http://x.com)").
    reflexivity. }
  split; [exact H|].
  exact (replaceMarkdownLink_rewrites twoLinks (js "[a](http://x.com)")
           (js "a") (js "US$ 5") H).
Defined.

(** ** More on names *)

Module NameMore.

Lemma unsafe_dash : unsafeChar DASH = false.
Proof. reflexivity. Qed.

Lemma sanitizeChar_safe c : unsafeChar (sanitizeChar c) = false.
Proof.
  unfold sanitizeChar. rewrite <- NameFacts.unsafeChar_set.
  destruct (unsafeChar c) eqn:E; [apply unsafe_dash | exact E].
Qed.

Lemma sanitizeChar_fixed c : sanitizeChar c = c <-> unsafeChar c = false.
Proof.
  unfold sanitizeChar. rewrite <- NameFacts.unsafeChar_set.
  destruct (unsafeChar c) eqn:E; split; try congruence.
  intros <-. rewrite unsafe_dash in E. discriminate.
Qed.

Lemma sanitizeName_length s : length (sanitizeName s) = length s.
Proof. rewrite NameFacts.sanitizeName_map. apply length_map. Qed.

Lemma sanitizeName_is_safe s : safeName (sanitizeName s).
Proof.
  rewrite NameFacts.sanitizeName_map. unfold safeName.
  induction s as [|c s IH]; [reflexivity|]. simpl.
  now rewrite sanitizeChar_safe, IH.
Qed.

Lemma sanitizeName_fixed s : sanitizeName s = s <-> safeName s.
Proof.
  rewrite NameFacts.sanitizeName_map. unfold safeName.
  induction s as [|c s IH]; simpl; [tauto|].
  rewrite andb_true_iff, negb_true_iff, <- IH, <- sanitizeChar_fixed.
  split; [intros [= H1 H2]; auto | intros [-> ->]; reflexivity].
Qed.

End NameMore.

(** X5.  A sanitized name has the length of the name, contains none of the
    replaced characters, and is the name itself exactly when the name
    contains none of them. *)
Theorem sanitizeName_safe :
  forall s : jsstring,
    length (sanitizeName s) = length s /\
    safeName (sanitizeName s) /\
    (sanitizeName s = s <-> safeName s).
Proof.
  intros s. split; [apply NameMore.sanitizeName_length|].
  split; [apply NameMore.sanitizeName_is_safe|].
  apply NameMore.sanitizeName_fixed.
Qed.

(** X6.  Except for a parsable url under the strategy [domain-date], a
    generated name is as long as the alias and free of the replaced
    characters; in particular it has no slash, so that the note lies in the
    target folder itself. *)
Theorem generateName_safe :
  forall (app : App) (settings : PagurlSettings) (link : ExtractedLink),
    url link = [] \/ nameStrategy settings = title \/
    urlHostname app (url link) = None ->
    length (generateName app settings link) = length (alias link) /\
    safeName (generateName app settings link) /\
    ~ In (N_of_ascii "/") (generateName app settings link).
Proof.
  intros app settings link H.
  assert (E : generateName app settings link = sanitizeName (alias link)).
  { unfold generateName. destruct (url link) as [|c u]; [reflexivity|].
    simpl. destruct H as [H | [H | H]]; [discriminate | now rewrite H |].
    destruct (nameStrategy settings); [reflexivity | now rewrite H]. }
  rewrite E.
  pose proof (NameMore.sanitizeName_is_safe (alias link)) as Hs.
  split; [apply NameMore.sanitizeName_length|]. split; [exact Hs|].
  intros Hin. unfold safeName in Hs.
  rewrite forallb_forall in Hs. specialize (Hs _ Hin). discriminate Hs.
Qed.

Lemma generateName_safe_witness :
  nameStrategy Example.settings = title /\
  length (generateName Example.app Example.settings
            {| fullMatch := js "[a/b: c?](https://x.test)";
               alias := js "a/b: c?"; url := js "https://x.test" |}) = 7%nat /\
  ~ In (N_of_ascii "/")
       (generateName Example.app Example.settings
          {| fullMatch := js "[a/b: c?](https://x.test)";
             alias := js "a/b: c?"; url := js "https://x.test" |}).
Proof.
  split; [reflexivity|].
  destruct (generateName_safe Example.app Example.settings
              {| fullMatch := js "[a/b: c?](https://x.test)";
                 alias := js "a/b: c?"; url := js "https://x.test" |}
              (or_intror (or_introl eq_refl))) as (Hl & _ & Hs).
  split; [exact Hl | exact Hs].
Defined.

(** X7.  Under the strategy [domain-date] the name depends on the host of
    the url only: two links to the same host get the same name, whatever
    their aliases and paths. *)
Theorem generateName_same_host :
  forall (app : App) (settings : PagurlSettings) (l1 l2 : ExtractedLink)
         (host : jsstring),
    nameStrategy settings = domain_date ->
    urlHostname app (url l1) = Some host ->
    urlHostname app (url l2) = Some host ->
    url l1 <> [] -> url l2 <> [] ->
    generateName app settings l1 = generateName app settings l2.
Proof.
  intros app settings l1 l2 host Hs H1 H2 N1 N2. unfold generateName.
  destruct (url l1) as [|c1 u1] eqn:E1; [congruence|].
  destruct (url l2) as [|c2 u2] eqn:E2; [congruence|].
  simpl. now rewrite Hs, H1, H2.
Qed.

Lemma generateName_same_host_witness :
  (nameStrategy {| template := []; vaultWideNoDuplicate := false;
                   nameStrategy := domain_date; folders := [] |}
   = domain_date /\
   urlHostname Example.app (js "https://example.com/x")
   = Some (js "example.com")) /\
  generateName Example.app
    {| template := []; vaultWideNoDuplicate := false;
       nameStrategy := domain_date; folders := [] |}
    {| fullMatch := js "[One](https://example.com/x)";
       alias := js "One"; url := js "https://example.com/x" |}
  = generateName Example.app
    {| template := []; vaultWideNoDuplicate := false;
       nameStrategy := domain_date; folders := [] |}
    {| fullMatch := js "[Two](<https://example.com/x>)";
       alias := js "Two"; url := js "https://example.com/x" |}.
Proof.
  split; [split; reflexivity|].
  apply (generateName_same_host Example.app _ _ _ (js "example.com"));
    try reflexivity; discriminate.
Defined.

(** ** More on content *)

Module ContentMore.
Import Regex.

(** With a value in which no dollar sign starts a pattern, the global
    replacement of a literal placeholder is the literal substitution. *)
Lemma replaceAll_template (l : list ascii) (v : jsstring) :
  l <> [] -> templateFree v = true ->
  forall s before skip,
    replaceAll_from (map (fun a => One (chr a)) l) v before skip s
    = substitute_from (map N_of_ascii l) v skip s.
Proof.
  intros Hl Hv. induction s as [|c s IH]; intros before skip.
  - cbn [replaceAll_from substitute_from].
    rewrite ContentFacts.exec_literal.
    destruct l as [|a l]; [congruence|]. destruct skip; reflexivity.
  - destruct skip as [|k]; cbn [replaceAll_from substitute_from];
      [|apply IH].
    rewrite ContentFacts.exec_literal.
    destruct (startsWith (map N_of_ascii l) (c :: s)) eqn:E.
    + rewrite ContentFacts.concat_singletons.
      rewrite ReplaceMore.getSubstitution_templateFree by assumption.
      destruct l as [|a l]; [congruence|].
      cbn [map length Nat.sub]. rewrite Nat.sub_0_r. f_equal. apply IH.
    + f_equal. apply IH.
Qed.

Lemma replaceAll_value s (pat : String.string) v :
  pat <> String.EmptyString -> templateFree v = true ->
  replaceAll s (literal pat) v = substituteAll s pat v.
Proof.
  intros Hp Hv. unfold replaceAll, literal, substituteAll, js.
  apply replaceAll_template; [|exact Hv].
  destruct pat; [congruence | discriminate].
Qed.

Lemma occursIn_tail pat c s : occursIn pat s -> occursIn pat (c :: s).
Proof. intros (b & a & ->). now exists (c :: b), a. Qed.

(** A text without the placeholder is left as it is, whatever the value. *)
Lemma replaceAll_absent (l : list ascii) (v : jsstring) :
  l <> [] ->
  forall s before,
    ~ occursIn (map N_of_ascii l) s ->
    replaceAll_from (map (fun a => One (chr a)) l) v before O s = s.
Proof.
  intros Hl. induction s as [|c s IH]; intros before Hno.
  - cbn [replaceAll_from]. rewrite ContentFacts.exec_literal.
    destruct l as [|a l]; [congruence | reflexivity].
  - cbn [replaceAll_from]. rewrite ContentFacts.exec_literal.
    destruct (startsWith (map N_of_ascii l) (c :: s)) eqn:E.
    + exfalso. apply Hno. apply startsWith_prefix in E as [t E].
      now exists [], t.
    + f_equal. apply IH. intros H. apply Hno. now apply occursIn_tail.
Qed.

Lemma replaceAll_no_placeholder s (pat : String.string) v :
  pat <> String.EmptyString -> ~ occursIn (js pat) s ->
  replaceAll s (literal pat) v = s.
Proof.
  intros Hp Hno. unfold replaceAll, literal.
  apply replaceAll_absent; [|exact Hno].
  destruct pat; [congruence | discriminate].
Qed.

Lemma frontMatter_eq link :
  js "---" ++ [LF] ++
  (if truthy (url link)
   then js "url: " ++ [QUOTE] ++ url link ++ [QUOTE] ++ [LF]
   else []) ++
  js "aliases:" ++ [LF] ++ js "  - " ++ alias link ++ [LF] ++
  js "---" ++ [LF]
  = frontMatterBlock link.
Proof. unfold frontMatterBlock. destruct (url link); reflexivity. Qed.

End ContentMore.

(** X8.  When no dollar sign of the alias or of the url starts a
    replacement pattern (a dollar sign followed by [$], [&], a back quote or
    a quote), the content of a new note is the front-matter block, with the
    url line exactly when the url is not empty, followed by the template in
    which every placeholder of the alias, and then every placeholder of the
    url, is replaced by the value as it is. *)
Theorem generateContent_literal :
  forall (settings : PagurlSettings) (link : ExtractedLink),
    templateFree (alias link) = true ->
    templateFree (url link) = true ->
    generateContent settings link =
    frontMatterBlock link ++
    substituteAll (substituteAll (template settings) "{{alias}}" (alias link))
                  "{{url}}" (url link).
Proof.
  intros settings link Ha Hu. unfold generateContent.
  rewrite !ContentMore.replaceAll_value by (assumption || discriminate).
  rewrite <- ContentMore.frontMatter_eq. rewrite <- !app_assoc. reflexivity.
Qed.

Lemma generateContent_literal_witness :
  (templateFree (js "US$ 5") = true /\
   templateFree (js "https://x.test") = true) /\
  generateContent Example.settings
    {| fullMatch := js "[US$ 5](https://x.test)";
       alias := js "US$ 5"; url := js "https://x.test" |}
  = js "---" ++ [LF] ++
    js "url: " ++ [QUOTE] ++ js "https://x.test" ++ [QUOTE] ++ [LF] ++
    js "aliases:" ++ [LF] ++ js "  - US$ 5" ++ [LF] ++
    js "---" ++ [LF] ++
    js "US$ 5: https://x.test".
Proof.
  split; [split; reflexivity|].
  rewrite (generateContent_literal Example.settings
             {| fullMatch := js "[US$ 5](https://x.test)";
                alias := js "US$ 5"; url := js "https://x.test" |}
             eq_refl eq_refl).
  reflexivity.
Defined.

(** X9.  A template that contains neither placeholder is copied as it is
    after the front-matter block, whatever the alias and the url. *)
Theorem generateContent_verbatim :
  forall (settings : PagurlSettings) (link : ExtractedLink),
    ~ occursIn (js "{{alias}}") (template settings) ->
    ~ occursIn (js "{{url}}") (template settings) ->
    generateContent settings link
    = frontMatterBlock link ++ template settings.
Proof.
  intros settings link Ha Hu. unfold generateContent.
  rewrite (ContentMore.replaceAll_no_placeholder _ "{{alias}}"%string _
             ltac:(discriminate) Ha).
  rewrite (ContentMore.replaceAll_no_placeholder _ "{{url}}"%string _
             ltac:(discriminate) Hu).
  rewrite <- ContentMore.frontMatter_eq. rewrite <- !app_assoc. reflexivity.
Qed.

Lemma generateContent_verbatim_witness :
  (~ occursIn (js "{{alias}}") (js "Notes {alias}") /\
   ~ occursIn (js "{{url}}") (js "Notes {alias}")) /\
  generateContent
    {| template := js "Notes {alias}"; vaultWideNoDuplicate := false;
       nameStrategy := title; folders := [] |}
    {| fullMatch := js "$& and $$"; alias := js "$& and $$"; url := [] |}
  = js "---" ++ [LF] ++
    js "aliases:" ++ [LF] ++ js "  - $& and $$" ++ [LF] ++
    js "---" ++ [LF] ++ js "Notes {alias}".
Proof.
  assert (Ha : ~ occursIn (js "{{alias}}") (js "Notes {alias}"))
    by (apply ReplaceFacts.indexOf_none; reflexivity).
  assert (Hu : ~ occursIn (js "{{url}}") (js "Notes {alias}"))
    by (apply ReplaceFacts.indexOf_none; reflexivity).
  split; [split; assumption|].
  rewrite (generateContent_verbatim
             {| template := js "Notes {alias}"; vaultWideNoDuplicate := false;
                nameStrategy := title; folders := [] |}
             {| fullMatch := js "$& and $$"; alias := js "$& and $$";
                url := [] |} Ha Hu).
  reflexivity.
Defined.

(** ** More on the duplicate lookup *)

Module LookupMore.

Lemma find_filter_first {A : Type} (p q : A -> bool) : forall l f,
  find p (filter q l) = Some f ->
  exists l1 l2, l = l1 ++ f :: l2 /\ q f = true /\ p f = true /\
                forall g, In g l1 -> q g && p g = false.
Proof.
  induction l as [|x l IH]; intros f; simpl; [discriminate|].
  destruct (q x) eqn:Eq; simpl.
  - destruct (p x) eqn:Ep.
    + intros [= <-]. exists [], l. repeat split; auto. intros g [].
    + intros H. destruct (IH f H) as (l1 & l2 & -> & Hq & Hp & Hn).
      exists (x :: l1), l2. repeat split; auto.
      intros g [<- | Hg]; [now rewrite Eq, Ep | now apply Hn].
  - intros H. destruct (IH f H) as (l1 & l2 & -> & Hq & Hp & Hn).
    exists (x :: l1), l2. repeat split; auto.
    intros g [<- | Hg]; [now rewrite Eq | now apply Hn].
Qed.

Lemma inScope_vault_wide settings dir f :
  vaultWideNoDuplicate settings = true -> inScope settings dir f = true.
Proof. intros H. unfold inScope. now rewrite H. Qed.

End LookupMore.

(** X10.  The lookup returns the first matching note in the order of the
    file index: no note before it is both considered and of the same
    url. *)
Theorem findExistingFile_first :
  forall (app : App) (settings : PagurlSettings) (u dir : jsstring)
         (m : ExistingFile),
    findExistingFile app settings u dir = Some m ->
    exists l1 f l2,
      getMarkdownFiles app = l1 ++ f :: l2 /\
      considered settings dir f /\ frontUrl f = Some (FString u) /\
      m = {| name := basename f; folder := parentPath f |} /\
      forall g, In g l1 ->
                ~ (considered settings dir g /\
                   frontUrl g = Some (FString u)).
Proof.
  intros app settings u dir m. unfold findExistingFile.
  destruct (find _ _) as [f|] eqn:E; [|discriminate].
  intros [= <-].
  apply LookupMore.find_filter_first in E as (l1 & l2 & Hl & Hq & Hp & Hn).
  exists l1, f, l2. split; [exact Hl|].
  split; [now apply LookupFacts.inScope_iff|].
  split; [now apply LookupFacts.urlMatches_iff|].
  split; [reflexivity|].
  intros g Hg [Hc Hu]. specialize (Hn g Hg).
  apply LookupFacts.inScope_iff in Hc. apply LookupFacts.urlMatches_iff in Hu.
  rewrite Hc, Hu in Hn. discriminate.
Qed.

Lemma findExistingFile_first_witness :
  findExistingFile Example.app Example.settings [] (js "notes")
    = Some {| name := js "draft"; folder := Some (js "notes") |} /\
  exists l1 f l2,
    getMarkdownFiles Example.app = l1 ++ f :: l2 /\
    considered Example.settings (js "notes") f /\
    frontUrl f = Some (FString []) /\
    {| name := js "draft"; folder := Some (js "notes") |}
      = {| name := basename f; folder := parentPath f |} /\
    forall g, In g l1 ->
              ~ (considered Example.settings (js "notes") g /\
                 frontUrl g = Some (FString [])).
Proof.
  split; [reflexivity|].
  exact (findExistingFile_first Example.app Example.settings [] (js "notes")
           _ eq_refl).
Defined.

(** X11.  With the toggle [vaultWideNoDuplicate] set, the result of the
    lookup does not depend on the target folder, and a duplicate that the
    lookup of one folder finds with the toggle off is not lost: the
    vault-wide lookup finds a note too. *)
Theorem findExistingFile_vault_wide :
  forall (app : App) (off on : PagurlSettings) (u dir dir' : jsstring),
    vaultWideNoDuplicate on = true ->
    findExistingFile app on u dir = findExistingFile app on u dir' /\
    (findExistingFile app off u dir <> None ->
     findExistingFile app on u dir' <> None).
Proof.
  intros app off on u dir dir' Hon. split.
  - unfold findExistingFile.
    rewrite (filter_ext (inScope on dir) (inScope on dir')); [reflexivity|].
    intros f. now rewrite !LookupMore.inScope_vault_wide.
  - intros Hfound Hnone.
    destruct (findExistingFile app off u dir) as [m|] eqn:E; [|congruence].
    apply LookupFacts.findExistingFile_some in E
      as (f & Hin & _ & Hu & _).
    rewrite LookupFacts.findExistingFile_none in Hnone.
    apply (Hnone f Hin); [now left | exact Hu].
Qed.

Lemma findExistingFile_vault_wide_witness :
  vaultWideNoDuplicate
    {| template := []; vaultWideNoDuplicate := true;
       nameStrategy := title; folders := [] |} = true /\
  findExistingFile Example.app
    {| template := []; vaultWideNoDuplicate := true;
       nameStrategy := title; folders := [] |}
    (js "https://y.test") (js "notes")
  = findExistingFile Example.app
    {| template := []; vaultWideNoDuplicate := true;
       nameStrategy := title; folders := [] |}
    (js "https://y.test") (js "archive") /\
  findExistingFile Example.app
    {| template := []; vaultWideNoDuplicate := true;
       nameStrategy := title; folders := [] |}
    (js "https://y.test") (js "notes") <> None.
Proof.
  split; [reflexivity|].
  destruct (findExistingFile_vault_wide Example.app Example.settings
              {| template := []; vaultWideNoDuplicate := true;
                 nameStrategy := title; folders := [] |}
              (js "https://y.test") (js "archive") (js "notes") eq_refl)
    as [_ Hkeep].
  split.
  - apply (findExistingFile_vault_wide Example.app Example.settings
             {| template := []; vaultWideNoDuplicate := true;
                nameStrategy := title; folders := [] |}
             (js "https://y.test") (js "notes") (js "archive") eq_refl).
  - apply Hkeep. discriminate.
Defined.

(** ** More on the command *)

Module CallbackMore.

(** How the first block ends. *)
Lemma callback_folder_cases app dir w :
  (exists d, callback_folder app dir w = (w, Returned d)) \/
  (callback_folder app dir w = (w, Thrown NoActiveFile) /\
   dir = js "current" /\ getActiveFile app = None).
Proof.
  unfold callback_folder. destruct (jseqb dir (js "current")) eqn:E.
  - apply jseqb_eq in E. destruct (getActiveFile app) as [f|] eqn:Ef.
    + left. eexists. reflexivity.
    + right. auto.
  - left. now exists dir.
Qed.

(** How the second block ends. *)
Lemma callback_link_cases w :
  (exists link, callback_link w = (w, Returned link)) \/
  (callback_link w = (w, Thrown NoValidInput) /\
   extractMarkdownLink (editor w) = None /\
   trim (selection (editor w)) = []).
Proof.
  unfold callback_link, bind, getEditor, getSelection.
  destruct (extractMarkdownLink (editor w)) as [link|] eqn:E.
  - left. now exists link.
  - destruct (trim (selection (editor w))) as [|c s] eqn:Et.
    + right. auto.
    + left. eexists. reflexivity.
Qed.

(** How an invocation ends: with one of the two errors, the world as it
    was, or with the [try] statement. *)
Lemma callback_cases app settings dir w :
  (callback app settings dir w = (w, Thrown NoActiveFile) /\
   dir = js "current" /\ getActiveFile app = None) \/
  (callback app settings dir w = (w, Thrown NoValidInput) /\
   extractMarkdownLink (editor w) = None /\
   trim (selection (editor w)) = []) \/
  (exists d link,
      snd (callback_folder app dir w) = Returned d /\
      snd (callback_link w) = Returned link /\
      callback app settings dir w = callback_try app settings link d w).
Proof.
  destruct (callback_folder_cases app dir w) as [[d Hd] | (Hd & H1 & H2)].
  - destruct (callback_link_cases w) as [[link Hl] | (Hl & H1 & H2)].
    + right. right. exists d, link.
      assert (Hd' : snd (callback_folder app dir w) = Returned d)
        by now rewrite Hd.
      assert (Hl' : snd (callback_link w) = Returned link) by now rewrite Hl.
      split; [exact Hd'|]. split; [exact Hl'|].
      exact (CallbackFacts.callback_steps _ settings _ _ _ _ Hd' Hl').
    + right. left. split; [|auto]. unfold callback, bind. now rewrite Hd, Hl.
  - left. split; [|auto]. unfold callback, bind. now rewrite Hd.
Qed.

(** A note with the empty name is written, and nothing else is done. *)
Lemma callback_try_silent app settings link d w :
  findExistingFile app settings (url link) d = None ->
  vaultCreate app (notePath d (generateName app settings link))
              (generateContent settings link) = None ->
  truthy (generateName app settings link) = false ->
  callback_try app settings link d w =
  ({| editor := editor w;
      notices := notices w;
      created := created w ++
                 [(notePath d (generateName app settings link),
                   generateContent settings link)] |}, Returned tt).
Proof.
  intros H Hc Hn. unfold callback_try, try_catch, bind. rewrite H.
  unfold createFile, generateNote, note_name, note_content.
  fold (notePath d (generateName app settings link)).
  rewrite Hc. unfold ret. rewrite Hn. reflexivity.
Qed.

(** The five ways the [try] statement ends. *)
Lemma callback_try_cases app settings link d w :
  (exists m, findExistingFile app settings (url link) d = Some m /\
             name m <> [] /\
             callback_try app settings link d w =
             ({| editor := rewritten (editor w) link (name m);
                 notices := notices w ++
                            [conversionNotice link (Some m) d (name m)];
                 created := created w |}, Returned tt)) \/
  (exists m, findExistingFile app settings (url link) d = Some m /\
             name m = [] /\
             callback_try app settings link d w = (w, Returned tt)) \/
  (exists message,
      findExistingFile app settings (url link) d = None /\
      vaultCreate app (notePath d (generateName app settings link))
                  (generateContent settings link) = Some message /\
      callback_try app settings link d w =
      ({| editor := editor w;
          notices := notices w ++ [js "Pagurl error: " ++ message];
          created := created w |}, Returned tt)) \/
  (findExistingFile app settings (url link) d = None /\
   generateName app settings link <> [] /\
   callback_try app settings link d w =
   ({| editor := rewritten (editor w) link (generateName app settings link);
       notices := notices w ++
                  [conversionNotice link None d
                     (generateName app settings link)];
       created := created w ++
                  [(notePath d (generateName app settings link),
                    generateContent settings link)] |}, Returned tt)) \/
  (findExistingFile app settings (url link) d = None /\
   generateName app settings link = [] /\
   callback_try app settings link d w =
   ({| editor := editor w;
       notices := notices w;
       created := created w ++
                  [(notePath d (generateName app settings link),
                    generateContent settings link)] |}, Returned tt)).
Proof.
  destruct (findExistingFile app settings (url link) d) as [m|] eqn:E.
  - rewrite (CallbackFacts.callback_try_found _ _ _ _ w _ E).
    destruct (name m) as [|c n] eqn:En.
    + right. left. exists m. auto.
    + left. exists m. split; [reflexivity|].
      split; [rewrite En; discriminate|]. now rewrite En.
  - right. right.
    destruct (vaultCreate app (notePath d (generateName app settings link))
                (generateContent settings link)) as [message|] eqn:Ec.
    + left. exists message. split; [reflexivity|]. split; [reflexivity|].
      exact (CallbackFacts.callback_try_rejected _ _ _ _ w _ E Ec).
    + right. destruct (generateName app settings link) as [|c n] eqn:En.
      * right. split; [reflexivity|]. split; [reflexivity|].
        rewrite <- En.
        apply (callback_try_silent _ _ _ _ w E); rewrite En; auto.
      * left. split; [reflexivity|]. split; [discriminate|].
        rewrite <- En.
        apply (CallbackFacts.callback_try_created _ _ _ _ w E);
          rewrite En; auto.
Qed.

End CallbackMore.

(** X12.  An invocation throws only the two errors raised before the [try]
    statement, and then nothing has been changed: [NoActiveFile] for the
    command [current] without active file, [NoValidInput] when no link is
    found and the trimmed selection is empty. *)
Theorem callback_throws :
  forall (app : App) (settings : PagurlSettings) (dir : jsstring) (w : World)
         (message : jsstring),
    snd (callback app settings dir w) = Thrown message ->
    fst (callback app settings dir w) = w /\
    ((message = NoActiveFile /\ dir = js "current" /\
      getActiveFile app = None) \/
     (message = NoValidInput /\ extractMarkdownLink (editor w) = None /\
      trim (selection (editor w)) = [])).
Proof.
  intros app settings dir w message H.
  destruct (CallbackMore.callback_cases app settings dir w)
    as [(E & H1 & H2) | [(E & H1 & H2) | (d & link & _ & _ & E)]];
    rewrite E in *; simpl in *.
  - injection H as <-. auto.
  - injection H as <-. auto.
  - destruct (CallbackFacts.callback_try_returns app settings link d w)
      as [Hr _]. congruence.
Qed.

Lemma callback_throws_witness :
  snd (callback Example.app Example.settings (js "current")
         (Example.world "foo" "a foo")) = Thrown NoActiveFile /\
  fst (callback Example.app Example.settings (js "current")
         (Example.world "foo" "a foo")) = Example.world "foo" "a foo".
Proof.
  split; [reflexivity|].
  apply (callback_throws Example.app Example.settings (js "current")
           (Example.world "foo" "a foo") NoActiveFile eq_refl).
Defined.

(** X13.  An invocation writes at most one file, and only when the lookup
    found no note: the file of the generated name in the target folder,
    with the generated content. *)
Theorem callback_writes_at_most_one :
  forall (app : App) (settings : PagurlSettings) (dir : jsstring) (w : World),
    created (fst (callback app settings dir w)) = created w \/
    exists d link,
      snd (callback_folder app dir w) = Returned d /\
      snd (callback_link w) = Returned link /\
      findExistingFile app settings (url link) d = None /\
      created (fst (callback app settings dir w))
      = created w ++ [(notePath d (generateName app settings link),
                       generateContent settings link)].
Proof.
  intros app settings dir w.
  destruct (CallbackMore.callback_cases app settings dir w)
    as [(E & _) | [(E & _) | (d & link & Hd & Hl & E)]];
    rewrite E; [now left | now left |].
  destruct (CallbackMore.callback_try_cases app settings link d w)
    as [(m & _ & _ & T) | [(m & _ & _ & T) | [(msg & _ & _ & T) |
        [(Hn & _ & T) | (Hn & _ & T)]]]]; rewrite T; simpl;
    try (now left); right; exists d, link; auto.
Qed.

(** X14.  An invocation never moves the cursor. *)
Theorem callback_keeps_cursor :
  forall (app : App) (settings : PagurlSettings) (dir : jsstring) (w : World),
    cursor (editor (fst (callback app settings dir w))) = cursor (editor w).
Proof.
  intros app settings dir w.
  destruct (CallbackMore.callback_cases app settings dir w)
    as [(E & _) | [(E & _) | (d & link & Hd & Hl & E)]];
    rewrite E; [reflexivity | reflexivity |].
  destruct (CallbackMore.callback_try_cases app settings link d w)
    as [(m & _ & _ & T) | [(m & _ & _ & T) | [(msg & _ & _ & T) |
        [(Hn & _ & T) | (Hn & _ & T)]]]]; rewrite T; reflexivity.
Qed.

(** X15.  The document is rewritten only together with the notice of the
    conversion, for a name that is not empty; and an error notice comes
    with no change of the document and no file.  At most one notice is
    shown. *)
Theorem callback_edit_with_notice :
  forall (app : App) (settings : PagurlSettings) (dir : jsstring) (w : World),
    (editor (fst (callback app settings dir w)) = editor w /\
     (notices (fst (callback app settings dir w)) = notices w \/
      exists message,
        notices (fst (callback app settings dir w))
          = notices w ++ [js "Pagurl error: " ++ message] /\
        created (fst (callback app settings dir w)) = created w)) \/
    (exists d link existing n,
        n <> [] /\
        editor (fst (callback app settings dir w))
          = rewritten (editor w) link n /\
        notices (fst (callback app settings dir w))
          = notices w ++ [conversionNotice link existing d n]).
Proof.
  intros app settings dir w.
  destruct (CallbackMore.callback_cases app settings dir w)
    as [(E & _) | [(E & _) | (d & link & Hd & Hl & E)]];
    rewrite E; [left; auto | left; auto |].
  destruct (CallbackMore.callback_try_cases app settings link d w)
    as [(m & _ & Hn & T) | [(m & _ & _ & T) | [(msg & _ & _ & T) |
        [(_ & Hn & T) | (_ & _ & T)]]]]; rewrite T; simpl.
  - right. exists d, link, (Some m), (name m). auto.
  - left. auto.
  - left. split; [reflexivity|]. right. exists msg. auto.
  - right. exists d, link, None, (generateName app settings link). auto.
  - left. auto.
Qed.

(** X16.  When the lookup finds no note and the vault refuses the write,
    the invocation returns without change of the document or of the vault
    and shows one notice with the message of the error. *)
Theorem callback_refused :
  forall (app : App) (settings : PagurlSettings) (dir d : jsstring)
         (w : World) (link : ExtractedLink) (message : jsstring),
    snd (callback_folder app dir w) = Returned d ->
    snd (callback_link w) = Returned link ->
    findExistingFile app settings (url link) d = None ->
    vaultCreate app (notePath d (generateName app settings link))
                (generateContent settings link) = Some message ->
    callback app settings dir w =
    ({| editor := editor w;
        notices := notices w ++ [js "Pagurl error: " ++ message];
        created := created w |}, Returned tt).
Proof.
  intros app settings dir d w link message Hd Hl Hnone Hc.
  rewrite (CallbackFacts.callback_steps _ settings _ _ _ _ Hd Hl).
  exact (CallbackFacts.callback_try_rejected _ _ _ _ w _ Hnone Hc).
Qed.

(** A link with the alias [other] converted in the folder [archive] of the
    example vault, where no note has the url and [other.md] exists. *)
Lemma callback_refused_witness :
  (snd (callback_folder Example.app (js "archive")
          (Example.world "" "[other](https://z.test)"))
     = Returned (js "archive") /\
   findExistingFile Example.app Example.settings (js "https://z.test")
                    (js "archive") = None /\
   vaultCreate Example.app (js "archive/other.md")
     (generateContent Example.settings
        {| fullMatch := js "[other](https://z.test)";
           alias := js "other"; url := js "https://z.test" |})
     = Some (js "File already exists.")) /\
  callback Example.app Example.settings (js "archive")
           (Example.world "" "[other](https://z.test)")
  = ({| editor := editor (Example.world "" "[other](https://z.test)");
        notices := [js "Pagurl error: File already exists."];
        created := [] |}, Returned tt).
Proof.
  split; [repeat split; reflexivity|].
  apply (callback_refused Example.app Example.settings (js "archive")
           (js "archive") (Example.world "" "[other](https://z.test)")
           {| fullMatch := js "[other](https://z.test)";
              alias := js "other"; url := js "https://z.test" |}
           (js "File already exists.")); reflexivity.
Defined.

(** X17.  When the generated name is empty (a link whose alias is blank,
    under the strategy [title]) and the lookup finds no note, the
    invocation asks for the file [.md] in the target folder and, when the
    vault accepts it, does nothing else: the document is left as it is and
    no notice is shown. *)
Theorem callback_blank_name :
  forall (app : App) (settings : PagurlSettings) (dir d : jsstring)
         (w : World) (link : ExtractedLink),
    snd (callback_folder app dir w) = Returned d ->
    snd (callback_link w) = Returned link ->
    findExistingFile app settings (url link) d = None ->
    generateName app settings link = [] ->
    vaultCreate app (d ++ js "/.md") (generateContent settings link) = None ->
    callback app settings dir w =
    ({| editor := editor w;
        notices := notices w;
        created := created w ++
                   [(d ++ js "/.md", generateContent settings link)] |},
     Returned tt).
Proof.
  intros app settings dir d w link Hd Hl Hnone Hn Hc.
  rewrite (CallbackFacts.callback_steps _ settings _ _ _ _ Hd Hl).
  assert (Hp : notePath d (generateName app settings link) = d ++ js "/.md")
    by (now rewrite Hn).
  rewrite (CallbackMore.callback_try_silent app settings link d w Hnone);
    rewrite ?Hp, ?Hn; auto.
Qed.

Lemma callback_blank_name_witness :
  (snd (callback_link (Example.world "" "see [ ](https://z.test)"))
     = Returned {| fullMatch := js "[ ](https://z.test)";
                   alias := []; url := js "https://z.test" |} /\
   generateName Example.app Example.settings
     {| fullMatch := js "[ ](https://z.test)";
        alias := []; url := js "https://z.test" |} = []) /\
  callback Example.app Example.settings (js "archive")
           (Example.world "" "see [ ](https://z.test)")
  = ({| editor := editor (Example.world "" "see [ ](https://z.test)");
        notices := [];
        created :=
          [(js "archive/.md",
            generateContent Example.settings
              {| fullMatch := js "[ ](https://z.test)";
                 alias := []; url := js "https://z.test" |})] |},
     Returned tt).
Proof.
  split; [split; reflexivity|].
  apply (callback_blank_name Example.app Example.settings (js "archive")
           (js "archive") (Example.world "" "see [ ](https://z.test)")
           {| fullMatch := js "[ ](https://z.test)";
              alias := []; url := js "https://z.test" |}); reflexivity.
Defined.

(** X18.  The command [current], with a file active: when the folder of the
    file has a path that is not empty and is not the word [current], the
    command does what the command of that folder does; when the file has no
    folder or the path is empty, the target folder is the folder named
    [current]. *)
Theorem callback_current :
  forall (app : App) (settings : PagurlSettings) (w : World) (f : TFile),
    getActiveFile app = Some f ->
    (forall p, parentPath f = Some p -> p <> [] -> p <> js "current" ->
               callback app settings (js "current") w
               = callback app settings p w) /\
    (parentPath f = None \/ parentPath f = Some [] ->
     snd (callback_folder app (js "current") w) = Returned (js "current")).
Proof.
  intros app settings w f Hf. split.
  - intros p Hp Hne Hcur. unfold callback, bind, callback_folder.
    rewrite jseqb_refl, Hf, Hp.
    replace (jseqb p (js "current")) with false.
    + unfold or_default, or_else. destruct p; [congruence | reflexivity].
    + symmetry. destruct (jseqb p (js "current")) eqn:E; [|reflexivity].
      apply jseqb_eq in E. congruence.
  - intros H. unfold callback_folder. rewrite jseqb_refl, Hf.
    destruct H as [-> | ->]; reflexivity.
Qed.

Lemma callback_current_witness :
  getActiveFile activeApp = Some (Example.note "old" "notes" None) /\
  callback activeApp Example.settings (js "current")
           (Example.world "" "see [Ex](https://z.test) here")
  = callback activeApp Example.settings (js "notes")
             (Example.world "" "see [Ex](https://z.test) here").
Proof.
  split; [reflexivity|].
  destruct (callback_current activeApp Example.settings
              (Example.world "" "see [Ex](https://z.test) here")
              (Example.note "old" "notes" None) eq_refl) as [H _].
  apply H; [reflexivity | discriminate | discriminate].
Defined.

(** ** The link and the document *)

Module DocumentFacts.

Lemma occursIn_trans (x y z : jsstring) :
  occursIn x y -> occursIn y z -> occursIn x z.
Proof.
  intros (b1 & a1 & ->) (b2 & a2 & ->).
  exists (b2 ++ b1), (a1 ++ a2). now rewrite <- !app_assoc.
Qed.

(** Every line is a piece of the document. *)
Lemma splitLines_occurs : forall s cur x,
  In x (splitLines cur s) -> occursIn x (cur ++ s).
Proof.
  induction s as [|c s IH]; intros cur x; simpl.
  - intros [<- | []]. now exists [], [].
  - destruct (c =? LF).
    + intros [<- | H].
      * now exists [], (c :: s).
      * destruct (IH [] x H) as (b & a & E). simpl in E.
        exists (cur ++ c :: b), a. rewrite E, <- app_assoc. reflexivity.
    + intros H. apply IH in H. now rewrite <- app_assoc in H.
Qed.

Lemma getLine_occurs e n : occursIn (getLine e n) (value e).
Proof.
  unfold getLine.
  destruct (nth_in_or_default n (splitLines [] (value e)) []) as [H | ->].
  - now apply splitLines_occurs in H.
  - now exists [], (value e).
Qed.

Lemma found_occurs text l :
  findMarkdownLink text = Some l -> occursIn (fullMatch l) text.
Proof.
  unfold findMarkdownLink, Regex.match_.
  destruct (Regex.search mdLinkRegex 0 text) as [m|] eqn:E; [|discriminate].
  intros [= <-].
  apply SearchFacts.search_sound in E
    as (pre & segs & post & Htext & _ & _ & Hm & _).
  simpl. rewrite Hm. now exists pre, post.
Qed.

Lemma found_contains text l :
  findMarkdownLink text = Some l -> containsLink text.
Proof.
  unfold findMarkdownLink, Regex.match_.
  destruct (Regex.search mdLinkRegex 0 text) as [m|] eqn:E; [|discriminate].
  intros _.
  apply SearchFacts.search_sound in E
    as (pre & segs & post & Htext & Hsegs & _).
  apply LinkFacts.parses_link in Hsegs
    as (a & ws0 & lb & u & rb & ws & Hcat & HP & _).
  exists pre, a, ws0, lb, u, rb, ws, post. rewrite <- Hcat. auto.
Qed.

(** White space only is all that [trim] removes entirely. *)
Lemma trimStart_nil s : trimStart s = [] -> forallb isSpace s = true.
Proof.
  induction s as [|c s IH]; simpl; [reflexivity|].
  destruct (isSpace c); [exact IH | discriminate].
Qed.

Lemma trimStart_head s :
  match trimStart s with [] => True | c :: _ => isSpace c = false end.
Proof.
  induction s as [|c s IH]; simpl; [exact I|].
  destruct (isSpace c) eqn:E; [exact IH | exact E].
Qed.

Lemma trim_nil s : trim s = [] -> forallb isSpace s = true.
Proof.
  unfold trim, trimEnd. intros H.
  assert (Hr : trimStart (rev (trimStart s)) = []).
  { apply (f_equal (@rev code_unit)) in H.
    now rewrite rev_involutive in H. }
  apply trimStart_nil in Hr.
  pose proof (trimStart_head s) as Hh.
  destruct (trimStart s) as [|c t] eqn:E; [now apply trimStart_nil|].
  exfalso. rewrite forallb_forall in Hr.
  rewrite (Hr c) in Hh; [discriminate|].
  apply in_rev. rewrite rev_involutive. now left.
Qed.

(** A blank text holds no link. *)
Lemma blank_no_link s : forallb isSpace s = true -> findMarkdownLink s = None.
Proof.
  intros H. destruct (findMarkdownLink s) as [l|] eqn:E; [|reflexivity].
  exfalso. apply found_contains in E
    as (pre & a & ws0 & lb & u & rb & ws & post & _ & ->).
  rewrite forallb_forall in H.
  specialize (H (N_of_ascii "[")). unfold mdLink in H.
  discriminate H. apply in_or_app. right. now left.
Qed.

End DocumentFacts.

(** X19.  With nothing selected, the link the second block returns comes
    from the line of the cursor, and [fullMatch] occurs in the document:
    the replacement step rewrites the first occurrence of it in the
    document, whatever the name. *)
Theorem callback_link_in_document :
  forall (w : World) (link : ExtractedLink),
    selection (editor w) = [] ->
    snd (callback_link w) = Returned link ->
    findMarkdownLink (getLine (editor w) (line (cursor (editor w))))
      = Some link /\
    occursIn (fullMatch link) (value (editor w)) /\
    forall n, exists before after,
      firstOccurrence (fullMatch link) (value (editor w)) before after /\
      value (rewritten (editor w) link n)
      = before ++
        Regex.getSubstitution (fullMatch link) before after
                              (wikiLink n (alias link)) ++ after.
Proof.
  intros w link Hsel. unfold callback_link, bind, getEditor,
    extractMarkdownLink, getSelection, getCursor.
  rewrite Hsel. cbn [or_else truthy trim trimStart trimEnd rev negb].
  destruct (findMarkdownLink (getLine (editor w) (line (cursor (editor w)))))
    as [l|] eqn:E; [|discriminate].
  intros [= <-].
  assert (Hocc : occursIn (fullMatch l) (value (editor w))).
  { apply (DocumentFacts.occursIn_trans _ _ _
             (DocumentFacts.found_occurs _ _ E)).
    apply DocumentFacts.getLine_occurs. }
  split; [reflexivity|]. split; [exact Hocc|].
  intros n.
  destruct (ReplaceFacts.replace_present (value (editor w)) (fullMatch l)
              (wikiLink n (alias l)) Hocc) as (before & after & Hf & Hr).
  exists before, after. split; [exact Hf | exact Hr].
Qed.

Lemma callback_link_in_document_witness :
  (selection (editor twoLinks) = [] /\
   snd (callback_link twoLinks)
   = Returned {| fullMatch := js "[a](http://x.com)";
                 alias := js "a"; url := js "http://x.com" |}) /\
  occursIn (js "[a](http://x.com)") (value (editor twoLinks)).
Proof.
  split; [split; reflexivity|].
  apply (callback_link_in_document twoLinks
           {| fullMatch := js "[a](http://x.com)";
              alias := js "a"; url := js "http://x.com" |}
           eq_refl eq_refl).
Defined.

(** X20.  With a selection that is not empty, the line of the cursor is
    not read: the second block gives the same result for every document.
    In particular a selection of white space only makes the command fail
    with [NoValidInput], even in a line that holds a link. *)
Theorem callback_link_selection :
  forall w : World,
    selection (editor w) <> [] ->
    (forall w' : World,
        selection (editor w') = selection (editor w) ->
        snd (callback_link w') = snd (callback_link w)) /\
    (trim (selection (editor w)) = [] ->
     callback_link w = (w, Thrown NoValidInput)).
Proof.
  intros w Hsel.
  assert (Hx : forall v : World,
             selection (editor v) = selection (editor w) ->
             extractMarkdownLink (editor v)
             = findMarkdownLink (selection (editor w))).
  { intros v Hv. unfold extractMarkdownLink, or_else, getSelection.
    rewrite Hv. destruct (selection (editor w)); [congruence | reflexivity]. }
  split.
  - intros w' Hw'. unfold callback_link, bind, getEditor.
    rewrite (Hx w' Hw'), (Hx w eq_refl). unfold getSelection. rewrite Hw'.
    destruct (findMarkdownLink (selection (editor w))); [reflexivity|].
    destruct (negb (truthy (trim (selection (editor w))))); reflexivity.
  - intros Hblank. unfold callback_link, bind, getEditor.
    rewrite (Hx w eq_refl).
    rewrite (DocumentFacts.blank_no_link _ (DocumentFacts.trim_nil _ Hblank)).
    unfold getSelection. rewrite Hblank. reflexivity.
Qed.

(** Two spaces selected in a line that holds a link. *)
Lemma callback_link_selection_witness :
  selection (editor (Example.world "  " "see  [a](http://x.com)")) <> [] /\
  callback_link (Example.world "  " "see  [a](http://x.com)")
  = (Example.world "  " "see  [a](http://x.com)", Thrown NoValidInput).
Proof.
  assert (H : selection (editor (Example.world "  " "see  [a](http://x.com)"))
              <> []) by discriminate.
  split; [exact H|].
  destruct (callback_link_selection
              (Example.world "  " "see  [a](http://x.com)") H) as [_ Hb].
  apply Hb. reflexivity.
Defined.

(** ** Settings and commands *)

Module SettingsFacts.

(** *** [trim] *)

Lemma trimStart_suffix s :
  exists ws, s = ws ++ trimStart s /\ forallb isSpace ws = true.
Proof.
  induction s as [|c s IH]; simpl.
  - now exists [].
  - destruct (isSpace c) eqn:E.
    + destruct IH as (ws & Hs & Hws). exists (c :: ws). simpl.
      rewrite E, Hws. split; [now rewrite <- Hs | reflexivity].
    + now exists [].
Qed.

Lemma trimStart_incl s c : In c (trimStart s) -> In c s.
Proof.
  destruct (trimStart_suffix s) as (ws & Hs & _). intros H.
  rewrite Hs. apply in_or_app. now right.
Qed.

Lemma trim_incl s c : In c (trim s) -> In c s.
Proof.
  unfold trim, trimEnd. intros H. apply in_rev in H.
  apply trimStart_incl in H. apply in_rev in H.
  now apply trimStart_incl in H.
Qed.

Lemma trimmed_trim s : trimmed (trim s).
Proof.
  unfold trim, trimEnd.
  pose proof (DocumentFacts.trimStart_head s) as Hh.
  set (t := trimStart s) in *.
  destruct (trimStart_suffix (rev t)) as (ws & Hs & _).
  pose proof (DocumentFacts.trimStart_head (rev t)) as Hu.
  destruct (trimStart (rev t)) as [|d u]; [exact I|].
  assert (Ht : t = (rev u ++ [d]) ++ rev ws).
  { rewrite <- (rev_involutive t), Hs, rev_app_distr. reflexivity. }
  simpl rev.
  destruct (rev u ++ [d]) as [|x r] eqn:Er.
  { destruct (rev u); discriminate. }
  unfold trimmed. split.
  - rewrite Ht in Hh. exact Hh.
  - rewrite <- Er. now rewrite last_last.
Qed.

Lemma rev_head (s : jsstring) c d :
  exists r, rev (c :: s) = last (c :: s) d :: r.
Proof.
  destruct (rev (c :: s)) as [|x r] eqn:E.
  - apply (f_equal (@length code_unit)) in E.
    rewrite length_rev in E. discriminate.
  - exists r. f_equal.
    assert (Hs : c :: s = rev r ++ [x]).
    { rewrite <- (rev_involutive (c :: s)), E. reflexivity. }
    rewrite Hs. now rewrite last_last.
Qed.

Lemma trim_trimmed s : trimmed s -> trim s = s.
Proof.
  destruct s as [|c s]; [reflexivity|]. intros [Hc Hl].
  unfold trim, trimEnd.
  assert (E1 : trimStart (c :: s) = c :: s) by (simpl; now rewrite Hc).
  rewrite E1.
  destruct (rev_head s c c) as (r & Er). rewrite Er.
  cbn [trimStart]. rewrite Hl. rewrite <- Er. apply rev_involutive.
Qed.

(** *** [split] and [join] *)

Lemma split_length sep : forall s cur,
  length (split sep cur s) = S (count_occ N.eq_dec s sep).
Proof.
  induction s as [|c s IH]; intros cur; simpl; [reflexivity|].
  destruct (N.eqb_spec c sep) as [-> | Hne].
  - destruct (N.eq_dec sep sep); [|congruence]. simpl. now rewrite IH.
  - destruct (N.eq_dec c sep); [congruence|]. apply IH.
Qed.

Lemma split_no_sep sep : forall s cur x,
  ~ In sep cur -> In x (split sep cur s) -> ~ In sep x.
Proof.
  induction s as [|c s IH]; intros cur x Hcur; simpl.
  - intros [<- | []]. exact Hcur.
  - destruct (N.eqb_spec c sep) as [-> | Hne].
    + intros [<- | H]; [exact Hcur|]. apply (IH [] x); auto.
    + apply IH. intros H. apply in_app_or in H as [H | [H | []]]; auto.
Qed.

Lemma split_piece sep x : forall cur rest,
  ~ In sep x ->
  split sep cur (x ++ sep :: rest) = (cur ++ x) :: split sep [] rest.
Proof.
  induction x as [|c x IH]; intros cur rest Hx; simpl.
  - rewrite N.eqb_refl, app_nil_r. reflexivity.
  - destruct (N.eqb_spec c sep) as [-> | Hne].
    + exfalso. apply Hx. now left.
    + rewrite IH, <- app_assoc; [reflexivity|].
      intros H. apply Hx. now right.
Qed.

Lemma split_last sep x : forall cur,
  ~ In sep x -> split sep cur x = [cur ++ x].
Proof.
  induction x as [|c x IH]; intros cur Hx; simpl.
  - now rewrite app_nil_r.
  - destruct (N.eqb_spec c sep) as [-> | Hne].
    + exfalso. apply Hx. now left.
    + rewrite IH, <- app_assoc; [reflexivity|].
      intros H. apply Hx. now right.
Qed.

(** The pieces of a joined list are the list, when the list is not empty
    and no element holds the separator. *)
Lemma split_join sep : forall l x,
  (forall y, In y (x :: l) -> ~ In sep y) ->
  split sep [] (join sep (x :: l)) = x :: l.
Proof.
  induction l as [|y l IH]; intros x H.
  - simpl. apply split_last. apply H. now left.
  - change (join sep (x :: y :: l)) with (x ++ sep :: join sep (y :: l)).
    rewrite split_piece by (apply H; now left).
    rewrite IH; [reflexivity|]. intros z Hz. apply H. now right.
Qed.

Lemma addCommands_map names : forall registered,
  addCommands names registered = registered ++ map command names.
Proof.
  unfold addCommands. induction names as [|n names IH]; intros registered.
  - simpl. now rewrite app_nil_r.
  - simpl. rewrite IH, <- app_assoc. reflexivity.
Qed.

Lemma load_save s : loadSettings (Some (saveSettings s)) = s.
Proof. destruct s; reflexivity. Qed.

End SettingsFacts.

(** X21.  The folder field of the settings tab: when the list of folders is
    not empty and every folder is free of commas and of white space at its
    ends, the text shown, entered again, gives the same settings. *)
Theorem folders_round_trip :
  forall p : Plugin,
    folders (plugin_settings p) <> [] ->
    (forall f, In f (folders (plugin_settings p)) ->
               ~ In COMMA f /\ trimmed f) ->
    plugin_settings (onChange_folders p (display_folders p))
    = plugin_settings p.
Proof.
  intros [[t v n fs] data cs]. simpl. intros Hne H.
  unfold display_folders. simpl. f_equal.
  destruct fs as [|x l]; [congruence|].
  rewrite SettingsFacts.split_join by (intros y Hy; apply H; exact Hy).
  transitivity (map (fun f : jsstring => f) (x :: l)); [|apply map_id].
  apply map_ext_in.
  intros f Hf. apply SettingsFacts.trim_trimmed. now apply H.
Qed.

Lemma folders_round_trip_witness :
  folders Example.settings <> [] /\
  plugin_settings
    (onChange_folders
       {| plugin_settings := Example.settings; plugin_data := None;
          plugin_commands := [] |}
       (js "notes,archive"))
  = Example.settings.
Proof.
  assert (Hne : folders Example.settings <> []) by discriminate.
  split; [exact Hne|].
  apply (folders_round_trip
           {| plugin_settings := Example.settings; plugin_data := None;
              plugin_commands := [] |} Hne).
  intros f Hf. simpl in Hf. destruct Hf as [<- | [<- | []]]; split;
    try (split; reflexivity);
    intros Hin; simpl in Hin;
    repeat (destruct Hin as [Hin | Hin]; [discriminate Hin|]);
    exact Hin.
Defined.

(** X22.  Whatever is entered in the folder field, the list of folders has
    one entry more than the text has commas, so it is never empty (the empty
    text gives one folder with the empty name), and every entry is free of
    commas and of white space at its ends. *)
Theorem onChange_folders_shape :
  forall (p : Plugin) (v : jsstring),
    length (folders (plugin_settings (onChange_folders p v)))
      = S (count_occ N.eq_dec v COMMA) /\
    forall f, In f (folders (plugin_settings (onChange_folders p v))) ->
              ~ In COMMA f /\ trimmed f.
Proof.
  intros p v. simpl. split.
  - rewrite length_map. apply SettingsFacts.split_length.
  - intros f Hf. apply in_map_iff in Hf as (x & <- & Hx). split.
    + intros H. apply SettingsFacts.trim_incl in H.
      now apply (SettingsFacts.split_no_sep COMMA v [] x (fun F => F)).
    + apply SettingsFacts.trimmed_trim.
Qed.

(** X23.  A change in the settings tab is saved but registers no command.
    When the plugin is loaded again from what was saved, it has the settings
    of the change, and it has registered one command for each folder, in the
    order of the list, followed by the command [current]: after a change of
    the folder field these are the trimmed pieces of the text, after a change
    of the toggle the folders as they were. *)
Theorem onload_after_change :
  forall (p : Plugin) (v : jsstring) (b : bool),
    (plugin_commands (onChange_folders p v) = plugin_commands p /\
     plugin_commands (onChange_toggle p b) = plugin_commands p) /\
    (plugin_settings (onload (plugin_data (onChange_folders p v)))
       = plugin_settings (onChange_folders p v) /\
     plugin_settings (onload (plugin_data (onChange_toggle p b)))
       = plugin_settings (onChange_toggle p b)) /\
    map cmd_id (plugin_commands (onload (plugin_data (onChange_folders p v))))
      = map trim (split COMMA [] v) ++ [js "current"] /\
    map cmd_id (plugin_commands (onload (plugin_data (onChange_toggle p b))))
      = folders (plugin_settings p) ++ [js "current"] /\
    vaultWideNoDuplicate
      (plugin_settings (onload (plugin_data (onChange_toggle p b)))) = b.
Proof.
  intros p v b.
  assert (Hids : forall s,
             map cmd_id (plugin_commands (onload (Some (saveSettings s))))
             = folders s ++ [js "current"]).
  { intros s. unfold onload. cbn [plugin_commands].
    rewrite SettingsFacts.load_save, SettingsFacts.addCommands_map. simpl.
    rewrite map_app, map_map. simpl. now rewrite map_id. }
  unfold onChange_folders, onChange_toggle, withSettings.
  cbn [plugin_data plugin_commands plugin_settings].
  rewrite !Hids. unfold onload. cbn [plugin_settings].
  rewrite !SettingsFacts.load_save.
  repeat split; reflexivity.
Qed.

(** X24.  A change of the folder field does not change what a command does:
    the callback of a command reads the settings when it runs, and reads
    nothing of the folder list. *)
Theorem editorCallback_after_folders :
  forall (app : App) (p : Plugin) (v : jsstring) (c : Command) (w : World),
    editorCallback app (onChange_folders p v) c w = editorCallback app p c w.
Proof.
  intros app p v c w. unfold editorCallback, onChange_folders, withSettings.
  cbn [plugin_settings].
  unfold callback, bind. destruct (callback_folder app (cmd_folder c) w)
    as [w1 [d|e]]; [|reflexivity].
  destruct (callback_link w1) as [w2 [link|e]]; [|reflexivity].
  reflexivity.
Qed.
